(** * olcli: reconciliation engine and folder resolver

    A shallow embedding of the parts of [src/client.ts] (folder resolution,
    [uploadFile]) and of the command-line actions [pull], [push] and [sync]
    that decide, file by file, what is written locally and what is uploaded.

    Conventions of the embedding.
    - JavaScript strings are [string]; buffers are lists of bytes.
    - JavaScript numbers are only used as counters and timestamps:
      [JS.number] is an integer or [NaN]; dates are milliseconds in [Z].
    - The local directory is a tree of [node]s; a path below the target
      directory is the list of its components ([join(targetDir, p)] is
      modelled by splitting [p] at '/': entry names of the archive are taken
      as clean relative paths).
    - Remote calls, the clock, the directory and the persisted state file are
      threaded through a [world]; an exception is the [Throw] result. *)

From Stdlib Require Import ZArith List String Ascii Bool Lia.
From Stdlib Require Import DecimalString HexadecimalString.
From Stdlib Require Import Strings.Byte.
Import ListNotations.

Set Warnings "-register-all".

Open Scope string_scope.
Open Scope Z_scope.

Definition bytes := list byte.

Definition bytes_eq_dec : forall a b : bytes, {a = b} + {a <> b} :=
  list_eq_dec Byte.byte_eq_dec.

(** ** JavaScript built-ins *)

Module JS.

(** A number as the client uses it: the counter of an identifier. *)
Inductive number : Type :=
| NaN
| Num (z : Z).

Definition minus (a : number) (k : Z) : number :=
  match a with NaN => NaN | Num z => Num (z - k) end.

Definition plus (a : number) (k : Z) : number :=
  match a with NaN => NaN | Num z => Num (z + k) end.

(** [a >= 0]; a comparison with [NaN] is false. *)
Definition geq0 (a : number) : bool :=
  match a with NaN => false | Num z => 0 <=? z end.

Definition hex_of_N (n : N) : string :=
  HexadecimalString.NilZero.string_of_uint (N.to_hex_uint n).

(** [a.toString(16)] *)
Definition toString16 (a : number) : string :=
  match a with
  | NaN => "NaN"
  | Num z => if z <? 0 then "-" ++ hex_of_N (Z.to_N (- z))
             else hex_of_N (Z.to_N z)
  end.

(** [String(z)] for an integer, as a template literal prints it. *)
Definition toStringDec (z : Z) : string :=
  DecimalString.NilZero.string_of_int (Z.to_int z).

Fixpoint replicate (n : nat) (c : ascii) : string :=
  match n with
  | O => EmptyString
  | S k => String c (replicate k c)
  end.

(** [s.padStart(n, c)] for a one-character filler. *)
Definition padStart (n : nat) (c : ascii) (s : string) : string :=
  replicate (n - String.length s) c ++ s.

(** [s.slice(0, n)] and [s.slice(n)] for [n >= 0]. *)
Definition slice_to (n : nat) (s : string) : string := substring 0 n s.
Definition slice_from (n : nat) (s : string) : string :=
  substring n (String.length s - n) s.

Definition is_space (c : ascii) : bool :=
  let n := nat_of_ascii c in
  (Nat.eqb n 32 || (Nat.leb 9 n && Nat.leb n 13))%bool.

Fixpoint skip_spaces (s : string) : string :=
  match s with
  | String c s' => if is_space c then skip_spaces s' else s
  | EmptyString => s
  end.

Definition hex_val (c : ascii) : option Z :=
  let n := Z.of_nat (nat_of_ascii c) in
  if ((48 <=? n) && (n <=? 57))%bool then Some (n - 48)
  else if ((97 <=? n) && (n <=? 102))%bool then Some (n - 87)
  else if ((65 <=? n) && (n <=? 70))%bool then Some (n - 55)
  else None.

(** The value of the longest prefix of hexadecimal digits; [acc] is the value
    read so far, [None] while no digit was seen. *)
Fixpoint hex_prefix (s : string) (acc : option Z) : option Z :=
  match s with
  | String c s' =>
      match hex_val c with
      | Some d =>
          hex_prefix s' (Some (16 * match acc with Some a => a | None => 0 end + d))
      | None => acc
      end
  | EmptyString => acc
  end.

(** [parseInt(s, 16)]: leading white space, a sign, an optional [0x], then
    the longest run of digits; [NaN] when there is none. *)
Definition parseInt16 (s : string) : number :=
  let s1 := skip_spaces s in
  let '(neg, s2) :=
    match s1 with
    | String "-"%char r => (true, r)
    | String "+"%char r => (false, r)
    | _ => (false, s1)
    end in
  let s3 :=
    match s2 with
    | String "0"%char (String "x"%char r) => r
    | String "0"%char (String "X"%char r) => r
    | _ => s2
    end in
  match hex_prefix s3 None with
  | None => NaN
  | Some v => Num (if neg then - v else v)
  end.

(** [s.split(sep)] for a one-character separator: never empty. *)
Fixpoint split (sep : ascii) (s : string) : list string :=
  match s with
  | EmptyString => [EmptyString]
  | String c s' =>
      if Ascii.eqb c sep then EmptyString :: split sep s'
      else match split sep s' with
           | h :: t => String c h :: t
           | [] => [String c EmptyString]
           end
  end.

(** [a.pop()] on a fresh array: its last element, [undefined] when empty. *)
Definition pop (l : list string) : option string :=
  match l with
  | [] => None
  | _ => Some (last l EmptyString)
  end.

(** [s.startsWith(".")] *)
Definition startsWithDot (s : string) : bool :=
  match s with
  | String "."%char _ => true
  | _ => false
  end.

(** Truthiness of a string that may be [undefined]. *)
Definition truthy (o : option string) : bool :=
  match o with
  | Some s => negb (String.eqb s "")
  | None => false
  end.

(** [for (let i = lo; i <= lo + n - 1; i++)]: the values of [i]. *)
Definition range (lo : Z) (n : nat) : list Z :=
  map (fun k => lo + Z.of_nat k) (seq 0 n).

(** A [Map] with string keys: bindings in insertion order, one per key. *)
Definition Map (V : Type) := list (string * V).

Fixpoint get {V} (k : string) (m : Map V) : option V :=
  match m with
  | [] => None
  | (k', v) :: m' => if String.eqb k' k then Some v else get k m'
  end.

Definition has {V} (k : string) (m : Map V) : bool :=
  match get k m with Some _ => true | None => false end.

(** [m.set(k, v)]: an existing key keeps its place. *)
Fixpoint set {V} (k : string) (v : V) (m : Map V) : Map V :=
  match m with
  | [] => [(k, v)]
  | (k', v') :: m' =>
      if String.eqb k' k then (k, v) :: m' else (k', v') :: set k v m'
  end.

End JS.

(** ** The local directory *)

Module Fs.

(** A file with its modification time and bytes, or a directory with its
    modification time and its entries in [readdirSync] order. *)
Inductive node : Type :=
| File (mtime : Z) (content : bytes)
| Dir (mtime : Z) (entries : list (string * node)).

Definition path := list string.

Definition mtime_of (n : node) : Z :=
  match n with File m _ => m | Dir m _ => m end.

Definition isDirectory (n : node) : bool :=
  match n with File _ _ => false | Dir _ _ => true end.

Fixpoint lookup (p : path) (n : node) {struct p} : option node :=
  match p with
  | [] => Some n
  | c :: rest =>
      match n with
      | File _ _ => None
      | Dir _ es =>
          match JS.get c es with
          | Some child => lookup rest child
          | None => None
          end
      end
  end.

(** [existsSync] *)
Definition existsSync (p : path) (root : node) : bool :=
  match lookup p root with Some _ => true | None => false end.

(** [dirname] of a path below the target directory. *)
Definition dirname (p : path) : path := removelast p.

(** [join(targetDir, name)] relative to the target directory. *)
Definition join (name : string) : path := JS.split "/"%char name.

(** A chain of new directories, each holding the next. *)
Fixpoint fresh_dirs (t : Z) (p : path) : node :=
  match p with
  | [] => Dir t []
  | c :: rest => Dir t [(c, fresh_dirs t rest)]
  end.

(** [mkdirSync(p, { recursive: true })] at time [t]; [None] when a component
    of [p] is a file. Creating an entry stamps its directory. *)
Fixpoint mkdir_p (t : Z) (p : path) (n : node) {struct p} : option node :=
  match p with
  | [] => match n with Dir _ _ => Some n | File _ _ => None end
  | c :: rest =>
      match n with
      | File _ _ => None
      | Dir m es =>
          match JS.get c es with
          | Some child =>
              match mkdir_p t rest child with
              | Some child' => Some (Dir m (JS.set c child' es))
              | None => None
              end
          | None => Some (Dir t (JS.set c (fresh_dirs t rest) es))
          end
      end
  end.

(** [writeFileSync(p, data)] at time [t]; [None] when [p] is a directory,
    when a component of [p] is a file, or when the parent is missing. *)
Fixpoint writeFileSync (t : Z) (data : bytes) (p : path) (n : node)
  {struct p} : option node :=
  match p with
  | [] => match n with File _ _ => Some (File t data) | Dir _ _ => None end
  | c :: rest =>
      match n with
      | File _ _ => None
      | Dir m es =>
          match JS.get c es with
          | Some child =>
              match writeFileSync t data rest child with
              | Some child' => Some (Dir m (JS.set c child' es))
              | None => None
              end
          | None =>
              match rest with
              | [] => Some (Dir t (JS.set c (File t data) es))
              | _ :: _ => None
              end
          end
      end
  end.

End Fs.

(** ** The remote service, the clock and the world *)

(** The fields of the multipart form of an upload. *)
Record upload_form : Type := {
  targetFolderId : string;
  name : string;
  type : string;
  qqfile : bytes
}.

(** The JSON body of an upload reply; a missing field is [None]. *)
Record upload_data : Type := {
  success : option bool;
  error : option string;
  entity_id : option string;
  entity_type : option string
}.

(** What [fetch] gives: a rejection, or a response with its [ok] flag, its
    status, its text and its JSON reading ([None] when [json()] throws). *)
Inductive response : Type :=
| Rejected
| Response (ok : bool) (status : Z) (text : string) (json : option upload_data).

Record Project : Type := { id : string; project_name : string }.

(** [rootFolder] of the project page, each folder with its [_id]. *)
Record ProjectInfo : Type := { rootFolder : option (list (option string)) }.

Record ZipEntry : Type := {
  entryName : string;
  isDirectory : bool;
  getData : bytes
}.

(** The capabilities the client calls, over a service state [Srv]: each call
    answers and moves the service on. [None] stands for a thrown error. *)
Class Env (Srv : Type) : Type := {
  env_connect : Srv -> bool * Srv;
  env_getProjectById : Srv -> option string -> option (option Project) * Srv;
  env_getProject : Srv -> option string -> option (option Project) * Srv;
  env_getProjectInfo : Srv -> string -> option ProjectInfo * Srv;
  env_downloadProject : Srv -> string -> option (list ZipEntry) * Srv;
  env_upload : Srv -> string -> string -> upload_form -> response * Srv;
  env_delete : Srv -> string -> string -> string -> option bool * Srv;
  (** the clock at its n-th reading *)
  env_clock : nat -> Z
}.

(** The persisted record [.olcli.json]. *)
Record Meta : Type := {
  projectId : option string;
  projectName : option string;
  lastPull : option Z;
  lastPush : option Z;
  lastSync : option Z
}.

Inductive event : Type :=
| EvUpload (project folder : string) (form : upload_form) (reply : response)
| EvDelete (project entity kind : string)
| EvDownload (project : string) (archive : option (list ZipEntry)).

Record world (Srv : Type) : Type := {
  srv : Srv;
  ticks : nat;
  dir : option Fs.node;
  meta : option Meta;
  log : list event
}.
Arguments srv {Srv}.
Arguments ticks {Srv}.
Arguments dir {Srv}.
Arguments meta {Srv}.
Arguments log {Srv}.

Inductive result (A : Type) : Type :=
| Ok (a : A)
| Throw (msg : string).
Arguments Ok {A}.
Arguments Throw {A}.

(** A computation over the world that may throw. *)
Definition M (Srv A : Type) : Type := world Srv -> result A * world Srv.

Definition ret {Srv A} (a : A) : M Srv A := fun w => (Ok a, w).
Definition throw {Srv A} (msg : string) : M Srv A := fun w => (Throw msg, w).
Definition bind {Srv A B} (c : M Srv A) (k : A -> M Srv B) : M Srv B :=
  fun w => match c w with
           | (Ok a, w') => k a w'
           | (Throw msg, w') => (Throw msg, w')
           end.

(** [try { c } catch (e) { }]: the outcome as a value. *)
Definition try {Srv A} (c : M Srv A) : M Srv (result A) :=
  fun w => let '(r, w') := c w in (Ok r, w').

Notation "x <- c ;; k" := (bind c (fun x => k))
  (at level 61, c at next level, right associativity).
Notation "c ;;; k" := (bind c (fun _ => k))
  (at level 61, right associativity).

Section World.
Context {Srv : Type} `{Env Srv}.

Definition with_srv (s : Srv) (w : world Srv) : world Srv :=
  {| srv := s; ticks := ticks w; dir := dir w; meta := meta w; log := log w |}.

Definition with_dir (d : option Fs.node) (w : world Srv) : world Srv :=
  {| srv := srv w; ticks := ticks w; dir := d; meta := meta w; log := log w |}.

Definition with_meta (m : option Meta) (w : world Srv) : world Srv :=
  {| srv := srv w; ticks := ticks w; dir := dir w; meta := m; log := log w |}.

Definition emit (e : event) (w : world Srv) : world Srv :=
  {| srv := srv w; ticks := ticks w; dir := dir w; meta := meta w;
     log := log w ++ [e] |}.

(** [Date.now()], [new Date()] and the stamp of a write: the next reading. *)
Definition now : M Srv Z :=
  fun w => (Ok (env_clock (ticks w)),
            {| srv := srv w; ticks := S (ticks w); dir := dir w;
               meta := meta w; log := log w |}).

(** A call of the service that throws on [None]. *)
Definition call {A} (f : Srv -> option A * Srv) (msg : string) : M Srv A :=
  fun w => let '(r, s) := f (srv w) in
           match r with
           | Some a => (Ok a, with_srv s w)
           | None => (Throw msg, with_srv s w)
           end.

Definition fetch_upload (project folder : string) (form : upload_form)
  : M Srv response :=
  fun w => let '(r, s) := env_upload (srv w) project folder form in
           (Ok r, emit (EvUpload project folder form r) (with_srv s w)).

End World.

(** ** The client ([src/client.ts]) *)

(** What [tryUpload] and [uploadFile] return. *)
Record upload_result : Type := {
  ur_success : bool;
  ur_error : option string;
  entityId : option string;
  entityType : option string
}.

Definition lower (c : ascii) : ascii :=
  let n := nat_of_ascii c in
  if (Nat.leb 65 n && Nat.leb n 90)%bool then ascii_of_nat (n + 32) else c.

Fixpoint toLowerCase (s : string) : string :=
  match s with
  | EmptyString => EmptyString
  | String c s' => String (lower c) (toLowerCase s')
  end.

Definition mimeTypes : JS.Map string :=
  [ ("tex", "text/x-tex"); ("bib", "text/x-bibtex"); ("cls", "text/x-tex");
    ("sty", "text/x-tex"); ("png", "image/png"); ("jpg", "image/jpeg");
    ("jpeg", "image/jpeg"); ("gif", "image/gif"); ("pdf", "application/pdf");
    ("svg", "image/svg+xml"); ("eps", "application/postscript") ].

(** [fileName.split('/').pop() || fileName] *)
Definition baseNameOf (fileName : string) : string :=
  match JS.pop (JS.split "/"%char fileName) with
  | Some s => if JS.truthy (Some s) then s else fileName
  | None => fileName
  end.

(** [mimeTypes[ext] || 'application/octet-stream'] for the extension of the
    base name (own keys of the table only). *)
Definition mimeTypeOf (baseName : string) : string :=
  let ext :=
    match JS.pop (JS.split "."%char baseName) with
    | Some e => toLowerCase e
    | None => ""
    end in
  match JS.get ext mimeTypes with
  | Some m => m
  | None => "application/octet-stream"
  end.

Definition is_false (o : option bool) : bool :=
  match o with Some false => true | _ => false end.

Definition is_string (o : option string) (s : string) : bool :=
  match o with Some x => String.eqb x s | None => false end.

Section Client.
Context {Srv : Type} `{Env Srv}.

Definition computeRootFolderId (projectId : string) : string :=
  let prefix := JS.slice_to 16 projectId in
  let suffix := JS.slice_from 16 projectId in
  let counter := JS.parseInt16 suffix in
  let newCounter := JS.padStart 8 "0" (JS.toString16 (JS.minus counter 1)) in
  prefix ++ newCounter.

Definition getProjectInfo (projectId : string) : M Srv ProjectInfo :=
  call (fun s => env_getProjectInfo s projectId) "Could not parse project info".

Definition getRootFolderId (projectId : string) : M Srv string :=
  r <- try (getProjectInfo projectId) ;;
  match r with
  | Ok {| rootFolder := Some (Some fid :: _) |} =>
      if JS.truthy (Some fid) then ret fid
      else ret (computeRootFolderId projectId)
  | _ => ret (computeRootFolderId projectId)
  end.

Definition deleteEntity (projectId entityId entityType : string) : M Srv unit :=
  fun w =>
    let '(r, s) := env_delete (srv w) projectId entityId entityType in
    let w' := emit (EvDelete projectId entityId entityType) (with_srv s w) in
    match r with
    | Some true => (Ok tt, w')
    | _ => (Throw "Failed to delete entity", w')
    end.

(** The candidates of [probeRootFolderId], in the order they are pushed. *)
Definition probe_candidates (projectId : string) : list string :=
  let prefix := JS.slice_to 16 projectId in
  let suffix := JS.parseInt16 (JS.slice_from 16 projectId) in
  let below :=
    flat_map (fun i =>
      if JS.geq0 (JS.minus suffix i)
      then [prefix ++ JS.padStart 8 "0" (JS.toString16 (JS.minus suffix i))]
      else []) (JS.range 2 49) in
  let above :=
    map (fun i => prefix ++ JS.padStart 8 "0" (JS.toString16 (JS.plus suffix i)))
        (JS.range 1 50) in
  computeRootFolderId projectId :: below ++ above.

(** [data.entity_id] of an accepted probe. *)
Definition probe_entity (r : response) : string :=
  match r with
  | Response _ _ _ (Some data) =>
      match entity_id data with Some e => e | None => "" end
  | _ => ""
  end.

Definition probe_form (folderId : string) (t : Z) : upload_form :=
  let testFileName := ".olcli-probe-" ++ JS.toStringDec t ++ ".tmp" in
  {| targetFolderId := folderId; name := testFileName; type := "text/plain";
     qqfile := list_byte_of_string "probe" |}.

(** [data.success !== false && data.entity_id] on the reply of a probe; a
    rejected fetch or an unreadable body is caught and counts as a failure. *)
Definition probe_accepted (r : response) : bool :=
  match r with
  | Response _ _ _ (Some data) =>
      (negb (is_false (success data)) && JS.truthy (entity_id data))%bool
  | _ => false
  end.

(** The loop over the candidates: a probe upload each, the first accepted
    one is returned after its probe file is deleted (errors ignored). *)
Fixpoint probe_loop (projectId : string) (candidates : list string)
  : M Srv (option string) :=
  match candidates with
  | [] => ret None
  | folderId :: rest =>
      t <- now ;;
      r <- fetch_upload projectId folderId (probe_form folderId t) ;;
      if probe_accepted r
      then
        _ <- try (deleteEntity projectId (probe_entity r) "doc") ;;
        ret (Some folderId)
      else probe_loop projectId rest
  end.

Definition probeRootFolderId (projectId : string) : M Srv (option string) :=
  probe_loop projectId (probe_candidates projectId).

(** What [tryUpload] makes of the reply to its request. *)
Definition upload_outcome (r : response) : result upload_result :=
  match r with
  | Rejected => Throw "fetch failed"
  | Response false status text _ =>
      Ok {| ur_success := false;
            ur_error := Some (JS.toStringDec status ++ " - " ++ text);
            entityId := None; entityType := None |}
  | Response true _ _ None => Throw "Unexpected end of JSON input"
  | Response true _ _ (Some data) =>
      if (is_false (success data) && is_string (error data) "folder_not_found")%bool
      then Ok {| ur_success := false; ur_error := Some "folder_not_found";
                 entityId := None; entityType := None |}
      else Ok {| ur_success := negb (is_false (success data));
                 ur_error := None;
                 entityId := entity_id data; entityType := entity_type data |}
  end.

Definition payload_form (fid baseName mimeType : string) (content : bytes)
  : upload_form :=
  {| targetFolderId := fid; name := baseName; type := mimeType;
     qqfile := content |}.

Definition tryUpload (projectId baseName mimeType : string) (content : bytes)
  (fid : string) : M Srv upload_result :=
  r <- fetch_upload projectId fid (payload_form fid baseName mimeType content) ;;
  fun w => (upload_outcome r, w).

(** [!result.success && result.error === 'folder_not_found'] *)
Definition folder_not_found (result : upload_result) : bool :=
  (negb (ur_success result) && is_string (ur_error result) "folder_not_found")%bool.

(** The end of [uploadFile]: a failed result is thrown. *)
Definition upload_finish (res : upload_result) : result upload_result :=
  if negb (ur_success res)
  then Throw ("Failed to upload file: " ++
              (if JS.truthy (ur_error res)
               then match ur_error res with Some e => e | None => "" end
               else "unknown error"))
  else Ok {| ur_success := ur_success res; ur_error := None;
             entityId := entityId res; entityType := entityType res |}.

(** [folderId || await this.getRootFolderId(projectId)] *)
Definition targetFolderOf (projectId : string) (folderId : option string)
  : M Srv string :=
  match folderId with
  | Some f => if JS.truthy folderId then ret f else getRootFolderId projectId
  | None => getRootFolderId projectId
  end.

Definition uploadFile (projectId : string) (folderId : option string)
  (fileName : string) (content : bytes) : M Srv upload_result :=
  targetFolderId <- targetFolderOf projectId folderId ;;
  let baseName := baseNameOf fileName in
  let mimeType := mimeTypeOf baseName in
  result <- tryUpload projectId baseName mimeType content targetFolderId ;;
  result <-
    (if folder_not_found result
     then
       probedFolderId <- probeRootFolderId projectId ;;
       match probedFolderId with
       | Some p =>
           if (JS.truthy probedFolderId && negb (String.eqb p targetFolderId))%bool
           then tryUpload projectId baseName mimeType content p
           else ret result
       | None => ret result
       end
     else ret result) ;;
  fun w => (upload_finish result, w).

End Client.

(** ** The command-line actions ([pull], [push], [sync]) *)

(** The tallies of [pull]. *)
Record pull_counts : Type := {
  fileCount : nat;
  skippedCount : nat;
  skippedFiles : list string
}.

(** An element of [filesToUpload] in [push]. *)
Record push_file : Type := {
  pf_path : Fs.path;
  relativePath : string
}.

Inductive push_outcome : Type :=
| NoFilesToUpload
| WouldUpload (files : list push_file)
| Uploaded (uploaded failed : nat).

(** A value of the [localFiles] map of [sync]. *)
Record local_file : Type := {
  lf_mtime : Z;
  lf_content : bytes
}.

(** The four lists [sync] builds while comparing. *)
Record sync_lists : Type := {
  filesToUpload : list (string * bytes);
  filesUpdatedLocally : list string;
  filesKeptLocal : list string;
  filesNewLocal : list string
}.

(** [relativeBase ? `${relativeBase}/${name}` : name] *)
Definition relative_join (relativeBase name : string) : string :=
  if String.eqb relativeBase "" then name else relativeBase ++ "/" ++ name.

(** One entry of the loop of [scanDir] in [push]: hidden entries are skipped,
    directories are scanned in turn, a file is pushed when [all] is set, when
    there is no [lastPull], or when it is newer than [lastPull]. *)
Fixpoint scanDir_entry (all : bool) (lastPull : option Z)
  (currentDir : Fs.path) (relativeBase : string)
  (name : string) (n : Fs.node) (acc : list push_file) {struct n}
  : list push_file :=
  if JS.startsWithDot name then acc
  else
    let fullPath := (currentDir ++ [name])%list in
    let relPath := relative_join relativeBase name in
    match n with
    | Fs.Dir _ es =>
        fold_left (fun a e => scanDir_entry all lastPull fullPath relPath
                                (fst e) (snd e) a) es acc
    | Fs.File m _ =>
        match lastPull with
        | Some lp =>
            if all then (acc ++ [{| pf_path := fullPath; relativePath := relPath |}])%list
            else if lp <? m
                 then (acc ++ [{| pf_path := fullPath; relativePath := relPath |}])%list
                 else acc
        | None => (acc ++ [{| pf_path := fullPath; relativePath := relPath |}])%list
        end
    end.

(** [scanDir(currentDir, relativeBase)] over the entries of a directory. *)
Definition scanDir (all : bool) (lastPull : option Z)
  (currentDir : Fs.path) (relativeBase : string)
  (entries : list (string * Fs.node)) (acc : list push_file) : list push_file :=
  fold_left (fun a e => scanDir_entry all lastPull currentDir relativeBase
                          (fst e) (snd e) a) entries acc.

(** One entry of the loop of [scanLocalFiles] in [sync]. *)
Fixpoint scanLocalFiles_entry (relativeBase : string)
  (name : string) (n : Fs.node) (localFiles : JS.Map local_file) {struct n}
  : JS.Map local_file :=
  if JS.startsWithDot name then localFiles
  else
    let relPath := relative_join relativeBase name in
    match n with
    | Fs.Dir _ es =>
        fold_left (fun a e => scanLocalFiles_entry relPath (fst e) (snd e) a)
                  es localFiles
    | Fs.File m c =>
        JS.set relPath {| lf_mtime := m; lf_content := c |} localFiles
    end.

Definition scanLocalFiles (relativeBase : string)
  (entries : list (string * Fs.node)) (localFiles : JS.Map local_file)
  : JS.Map local_file :=
  fold_left (fun a e => scanLocalFiles_entry relativeBase (fst e) (snd e) a)
            entries localFiles.

(** The [remoteFiles] map of [sync]: the file entries of the archive. *)
Definition remoteFilesOf (entries : list ZipEntry) : JS.Map bytes :=
  fold_left (fun m e => if isDirectory e then m
                        else JS.set (entryName e) (getData e) m)
            entries [].

Section Cli.
Context {Srv : Type} `{Env Srv}.

(** *** File-system calls on the target directory *)

Definition existsSync (p : Fs.path) : M Srv bool :=
  fun w => (Ok match dir w with
               | Some root => Fs.existsSync p root
               | None => false
               end, w).

(** [statSync(p).mtime] *)
Definition statSync_mtime (p : Fs.path) : M Srv Z :=
  fun w => match dir w with
           | Some root =>
               match Fs.lookup p root with
               | Some n => (Ok (Fs.mtime_of n), w)
               | None => (Throw "ENOENT", w)
               end
           | None => (Throw "ENOENT", w)
           end.

(** [readFileSync(p)] *)
Definition readFileSync (p : Fs.path) : M Srv bytes :=
  fun w => match dir w with
           | Some root =>
               match Fs.lookup p root with
               | Some (Fs.File _ c) => (Ok c, w)
               | Some (Fs.Dir _ _) => (Throw "EISDIR", w)
               | None => (Throw "ENOENT", w)
               end
           | None => (Throw "ENOENT", w)
           end.

(** [mkdirSync(p, { recursive: true })] *)
Definition mkdirSync (p : Fs.path) : M Srv unit :=
  t <- now ;;
  fun w => match dir w with
           | Some root =>
               match Fs.mkdir_p t p root with
               | Some root' => (Ok tt, with_dir (Some root') w)
               | None => (Throw "ENOTDIR", w)
               end
           | None => (Ok tt, with_dir (Some (Fs.fresh_dirs t p)) w)
           end.

(** [writeFileSync(p, data)] *)
Definition writeFileSync (p : Fs.path) (data : bytes) : M Srv unit :=
  t <- now ;;
  fun w => match dir w with
           | Some root =>
               match Fs.writeFileSync t data p root with
               | Some root' => (Ok tt, with_dir (Some root') w)
               | None => (Throw "EISDIR", w)
               end
           | None => (Throw "ENOENT", w)
           end.

(** [if (!existsSync(d)) mkdirSync(d, { recursive: true })] *)
Definition ensureDir (d : Fs.path) : M Srv unit :=
  ex <- existsSync d ;;
  if (ex : bool) then ret tt else mkdirSync d.

Definition ensureTargetDir : M Srv unit := ensureDir [].

(** [existsSync(metaPath) ? JSON.parse(readFileSync(metaPath)) : undefined] *)
Definition readMeta : M Srv (option Meta) := fun w => (Ok (meta w), w).

Definition writeMeta (m : Meta) : M Srv unit :=
  fun w => (Ok tt, with_meta (Some m) w).

Definition lastPullOf (m : option Meta) : option Z :=
  match m with Some x => lastPull x | None => None end.

(** *** Connecting and resolving the project *)

Definition getClient : M Srv unit :=
  fun w => let '(ok, s) := env_connect (srv w) in
           if ok then (Ok tt, with_srv s w)
           else (Throw "No session cookie found.", with_srv s w).

(** [getProjectById(p) || getProject(p)], or "Project not found"; the
    argument is [undefined] when the caller has no name to give. *)
Definition resolveProject (project : option string)
  : M Srv (string * option string) :=
  byId <- call (fun s => env_getProjectById s project) "Failed to fetch projects" ;;
  proj <- match byId with
          | Some x => ret (Some x)
          | None => call (fun s => env_getProject s project) "Failed to fetch projects"
          end ;;
  match proj with
  | Some x => ret (id x, Some (project_name x))
  | None => throw "Project not found"
  end.

Definition downloadProject (projectId : string) : M Srv (list ZipEntry) :=
  fun w => let '(r, s) := env_downloadProject (srv w) projectId in
           let w' := emit (EvDownload projectId r) (with_srv s w) in
           match r with
           | Some entries => (Ok entries, w')
           | None => (Throw "Failed to download project", w')
           end.

(** *** pull *)

(** The body of the extraction loop for one entry of the archive. *)
Definition pull_entry (force : bool) (lastPull : option Z) (entry : ZipEntry)
  (c : pull_counts) : M Srv pull_counts :=
  if isDirectory entry then ret c
  else
    let filePath := Fs.join (entryName entry) in
    let fileDir := Fs.dirname filePath in
    ex <- existsSync filePath ;;
    newer <-
      match lastPull with
      | Some lp =>
          if (negb force && ex)%bool
          then r <- try (statSync_mtime filePath) ;;
               match r with
               | Ok mtime => ret (lp <? mtime)
               | Throw _ => ret false
               end
          else ret false
      | None => ret false
      end ;;
    if (newer : bool)
    then ret {| fileCount := fileCount c;
                skippedCount := S (skippedCount c);
                skippedFiles := skippedFiles c ++ [entryName entry] |}
    else
      ensureDir fileDir ;;;
      writeFileSync filePath (getData entry) ;;;
      ret {| fileCount := S (fileCount c);
             skippedCount := skippedCount c;
             skippedFiles := skippedFiles c |}.

Fixpoint pull_loop (force : bool) (lastPull : option Z) (entries : list ZipEntry)
  (c : pull_counts) : M Srv pull_counts :=
  match entries with
  | [] => ret c
  | entry :: rest =>
      c' <- pull_entry force lastPull entry c ;;
      pull_loop force lastPull rest c'
  end.

Definition pull_start : pull_counts :=
  {| fileCount := 0; skippedCount := 0; skippedFiles := [] |}.

(** The action from its [try] on, with the identity the state file gave. *)
Definition pull_files (known : option string * option string)
  (project : option string) (force : bool) : M Srv pull_counts :=
  getClient ;;;
  proj <- (if JS.truthy (fst known)
           then ret (match fst known with Some i => i | None => "" end,
                     snd known)
           else resolveProject project) ;;
  entries <- downloadProject (fst proj) ;;
  ensureTargetDir ;;;
  m1 <- readMeta ;;
  c <- pull_loop force (lastPullOf m1) entries pull_start ;;
  t <- now ;;
  writeMeta {| projectId := Some (fst proj); projectName := snd proj;
               lastPull := Some t; lastPush := None; lastSync := None |} ;;;
  ret c.

Definition pull_action (project : option string) (force : bool)
  : M Srv pull_counts :=
  m0 <- readMeta ;;
  match JS.truthy project, m0 with
  | false, None => throw "No project specified."
  | false, Some m => pull_files (projectId m, projectName m) project force
  | true, _ => pull_files (None, None) project force
  end.

(** *** push *)

(** [readdirSync(targetDir)] *)
Definition readdirSync_root : M Srv (list (string * Fs.node)) :=
  fun w => match dir w with
           | Some (Fs.Dir _ es) => (Ok es, w)
           | Some (Fs.File _ _) => (Throw "ENOTDIR", w)
           | None => (Throw "ENOENT", w)
           end.

(** The upload loop of [push]: a failure is counted and the loop goes on. *)
Fixpoint push_loop (projectId : string) (files : list push_file)
  (uploaded failed : nat) : M Srv (nat * nat) :=
  match files with
  | [] => ret (uploaded, failed)
  | file :: rest =>
      r <- try (content <- readFileSync (pf_path file) ;;
                uploadFile projectId None (relativePath file) content) ;;
      match r with
      | Ok _ => push_loop projectId rest (S uploaded) failed
      | Throw _ => push_loop projectId rest uploaded (S failed)
      end
  end.

Definition push_action (project : option string) (all dryRun : bool)
  : M Srv push_outcome :=
  m0 <- readMeta ;;
  let known :=
    if JS.truthy project then (None, project)
    else match m0 with
         | Some m => (projectId m, projectName m)
         | None => (None, None)
         end in
  let lastPull := lastPullOf m0 in
  if (negb (JS.truthy (fst known)) && negb (JS.truthy (snd known)))%bool
  then throw "No project specified."
  else
    getClient ;;;
    proj <- (if JS.truthy (fst known)
             then ret (match fst known with Some i => i | None => "" end,
                       snd known)
             else resolveProject (snd known)) ;;
    entries <- readdirSync_root ;;
    let files := scanDir all lastPull [] "" entries [] in
    match files with
    | [] => ret NoFilesToUpload
    | _ :: _ =>
        if dryRun then ret (WouldUpload files)
        else
          counts <- push_loop (fst proj) files 0 0 ;;
          m1 <- readMeta ;;
          match m1 with
          | Some m =>
              t <- now ;;
              writeMeta {| projectId := projectId m; projectName := projectName m;
                           lastPull := lastPullOf (Some m); lastPush := Some t;
                           lastSync := lastSync m |}
          | None => ret tt
          end ;;;
          ret (Uploaded (fst counts) (snd counts))
    end.

(** *** sync *)

(** [localFile && lastPull && localFile.mtime > lastPull]: the local file
    when it wins over the remote one. *)
Definition localWins (localFiles : JS.Map local_file) (lastPull : option Z)
  (path : string) : option local_file :=
  match JS.get path localFiles, lastPull with
  | Some localFile, Some lp =>
      if lp <? lf_mtime localFile then Some localFile else None
  | _, _ => None
  end.

(** The body of the merge loop for one remote file. *)
Definition sync_remote (localFiles : JS.Map local_file) (lastPull : option Z)
  (remote : string * bytes) (l : sync_lists) : M Srv sync_lists :=
  let '(path, remoteContent) := remote in
  let filePath := Fs.join path in
  let fileDir := Fs.dirname filePath in
  ensureDir fileDir ;;;
  match localWins localFiles lastPull path with
  | Some localFile =>
      if bytes_eq_dec (lf_content localFile) remoteContent
      then ret l
      else ret {| filesToUpload := filesToUpload l ++ [(path, lf_content localFile)];
                  filesUpdatedLocally := filesUpdatedLocally l;
                  filesKeptLocal := filesKeptLocal l ++ [path];
                  filesNewLocal := filesNewLocal l |}
  | None =>
      writeFileSync filePath remoteContent ;;;
      ret {| filesToUpload := filesToUpload l;
             filesUpdatedLocally := filesUpdatedLocally l ++ [path];
             filesKeptLocal := filesKeptLocal l;
             filesNewLocal := filesNewLocal l |}
  end.

Fixpoint sync_merge (localFiles : JS.Map local_file) (lastPull : option Z)
  (remoteFiles : JS.Map bytes) (l : sync_lists) : M Srv sync_lists :=
  match remoteFiles with
  | [] => ret l
  | remote :: rest =>
      l' <- sync_remote localFiles lastPull remote l ;;
      sync_merge localFiles lastPull rest l'
  end.

(** The loop over [localFiles] that queues the files the remote has not. *)
Fixpoint sync_new_local (remoteFiles : JS.Map bytes)
  (localFiles : JS.Map local_file) (l : sync_lists) : sync_lists :=
  match localFiles with
  | [] => l
  | (path, localFile) :: rest =>
      sync_new_local remoteFiles rest
        (if JS.has path remoteFiles then l
         else {| filesToUpload := filesToUpload l ++ [(path, lf_content localFile)];
                 filesUpdatedLocally := filesUpdatedLocally l;
                 filesKeptLocal := filesKeptLocal l;
                 filesNewLocal := filesNewLocal l ++ [path] |})
  end.

(** The upload loop of [sync]: a failure aborts the call. *)
Fixpoint sync_upload (projectId : string) (files : list (string * bytes))
  : M Srv unit :=
  match files with
  | [] => ret tt
  | (path, content) :: rest =>
      uploadFile projectId None path content ;;;
      sync_upload projectId rest
  end.

Definition no_lists : sync_lists :=
  {| filesToUpload := []; filesUpdatedLocally := [];
     filesKeptLocal := []; filesNewLocal := [] |}.

(** Lines 928 to 1019 of the action: download, scan, compare. *)
Definition sync_compare (projectId : string) : M Srv sync_lists :=
  entries <- downloadProject projectId ;;
  ensureTargetDir ;;;
  m1 <- readMeta ;;
  localFiles <-
    match m1 with
    | Some _ => es <- readdirSync_root ;; ret (scanLocalFiles "" es [])
    | None => ret []
    end ;;
  let remoteFiles := remoteFilesOf entries in
  m2 <- readMeta ;;
  l <- sync_merge localFiles (lastPullOf m2) remoteFiles no_lists ;;
  ret (sync_new_local remoteFiles localFiles l).

Definition sync_action (project : option string) : M Srv sync_lists :=
  m0 <- readMeta ;;
  let known :=
    if JS.truthy project then (None, project)
    else match m0 with
         | Some m => (projectId m, projectName m)
         | None => (None, None)
         end in
  if (negb (JS.truthy (fst known)) && negb (JS.truthy (snd known)))%bool
  then throw "No project specified."
  else
    getClient ;;;
    proj <- (if JS.truthy (fst known)
             then ret (match fst known with Some i => i | None => "" end,
                       snd known)
             else resolveProject (snd known)) ;;
    l <- sync_compare (fst proj) ;;
    sync_upload (fst proj) (filesToUpload l) ;;;
    t1 <- now ;;
    t2 <- now ;;
    writeMeta {| projectId := Some (fst proj); projectName := snd proj;
                 lastPull := Some t1; lastPush := None; lastSync := Some t2 |} ;;;
    ret l.

End Cli.

(** ** A small service for the examples

    It accepts an upload exactly into the folders it knows and answers
    [folder_not_found] otherwise; its clock advances by one at each reading. *)

Module Demo.

Record service : Type := {
  folders : list string;
  archive : option (list ZipEntry);
  info : option ProjectInfo
}.

Definition reply (s : service) (folder : string) : response :=
  if existsb (String.eqb folder) (folders s)
  then Response true 200 ""
         (Some {| success := Some true; error := None;
                  entity_id := Some "e1"; entity_type := Some "doc" |})
  else Response true 200 ""
         (Some {| success := Some false; error := Some "folder_not_found";
                  entity_id := None; entity_type := None |}).

#[global] Instance env : Env service := {|
  env_connect := fun s => (true, s);
  env_getProjectById := fun s p =>
    (Some match p with
          | Some i => Some {| id := i; project_name := i |}
          | None => None
          end, s);
  env_getProject := fun s p => (Some None, s);
  env_getProjectInfo := fun s _ => (info s, s);
  env_downloadProject := fun s _ => (archive s, s);
  env_upload := fun s _ folder _ => (reply s folder, s);
  env_delete := fun s _ _ _ => (Some true, s);
  env_clock := fun n => 3000 + Z.of_nat n
|}.

Definition b (s : string) : bytes := list_byte_of_string s.

Definition project : string := "65a1b2c3d4e5f60718293a4b".

(** A service that knows one folder, three below the project's counter. *)
Definition shifted : service :=
  {| folders := ["65a1b2c3d4e5f60718293a48"];
     archive := Some [ {| entryName := "main.tex"; isDirectory := false;
                          getData := b "A" |} ];
     info := None |}.

(** A service whose archive cannot be downloaded. *)
Definition offline : service :=
  {| folders := []; archive := None; info := None |}.

(** A service that knows no folder at all. *)
Definition lost : service :=
  {| folders := []; archive := Some []; info := None |}.

Definition start (s : service) (d : option Fs.node) (m : option Meta)
  : world service :=
  {| srv := s; ticks := 0; dir := d; meta := m; log := [] |}.

(** A clone of the project made at time 1500 whose [main.tex] was edited
    at time 2000. *)
Definition edited : world service :=
  start shifted
    (Some (Fs.Dir 1400 [("main.tex", Fs.File 2000 (b "B"))]))
    (Some {| projectId := Some project; projectName := Some "paper";
             lastPull := Some 1500; lastPush := None; lastSync := None |}).

(** A directory with files but no state file. *)
Definition unbound : world service :=
  start shifted
    (Some (Fs.Dir 1400 [("main.tex", Fs.File 2000 (b "B"));
                        ("new.tex", Fs.File 2100 (b "N"))]))
    None.

End Demo.

(** ** A service that is late by one request

    Its first upload is answered with [folder_not_found], every later one is
    accepted: the folder appears between two requests. The state counts the
    uploads seen. *)

Module Late.

Definition reply (seen : nat) : response :=
  match seen with
  | O => Response true 200 ""
           (Some {| success := Some false; error := Some "folder_not_found";
                    entity_id := None; entity_type := None |})
  | S _ => Response true 200 ""
             (Some {| success := Some true; error := None;
                      entity_id := Some "e1"; entity_type := Some "doc" |})
  end.

#[global] Instance env : Env nat := {|
  env_connect := fun s => (true, s);
  env_getProjectById := fun s p => (Some None, s);
  env_getProject := fun s p => (Some None, s);
  env_getProjectInfo := fun s _ => (None, s);
  env_downloadProject := fun s _ => (None, s);
  env_upload := fun s _ _ _ => (reply s, S s);
  env_delete := fun s _ _ _ => (Some true, s);
  env_clock := fun n => 3000 + Z.of_nat n
|}.

Definition start : world nat :=
  {| srv := 0%nat; ticks := 0; dir := None; meta := None; log := [] |}.

End Late.

(** ** Vocabulary of the statements *)

(** A project identifier as the service issues it: 24 hexadecimal digits. *)
Fixpoint all_hex (s : string) : bool :=
  match s with
  | EmptyString => true
  | String c s' =>
      match JS.hex_val c with Some _ => all_hex s' | None => false end
  end.

Definition is_hex_id (s : string) : bool :=
  (Nat.eqb (String.length s) 24 && all_hex s)%bool.

(** The handle with a given counter: the prefix and the counter in
    hexadecimal, padded to eight digits. *)
Definition folder_handle (prefix : string) (counter : Z) : string :=
  prefix ++ JS.padStart 8 "0" (JS.toString16 (JS.Num counter)).

(** The offsets of the probing window in the order of the specification:
    -1, then -2 down to -50 where the counter stays non-negative, then +1 up
    to +50. *)
Definition probe_offsets (counter : Z) : list Z :=
  (-1 :: filter (fun o => 0 <=? counter + o) (map Z.opp (JS.range 2 49))
      ++ JS.range 1 50)%list.

(** The upload requests of a log, each with its folder and its reply. *)
Fixpoint uploads (evs : list event) : list (string * response) :=
  match evs with
  | [] => []
  | EvUpload _ folder _ r :: rest => (folder, r) :: uploads rest
  | _ :: rest => uploads rest
  end.

(** A probe as the loop sees it: the folder tried and whether it passed. *)
Definition probe_view (x : string * response) : string * bool :=
  (fst x, probe_accepted (snd x)).

(** The request [uploadFile] sends for a file into a folder. *)
Definition attempt (pid fileName : string) (content : bytes)
  (folder : string) (reply : response) : event :=
  EvUpload pid folder
    (payload_form folder (baseNameOf fileName) (mimeTypeOf (baseNameOf fileName))
       content) reply.

(** The service answered the request with [folder_not_found]. *)
Definition rejected_folder_not_found (r : response) : bool :=
  match r with
  | Response true _ _ (Some data) =>
      (is_false (success data) && is_string (error data) "folder_not_found")%bool
  | _ => false
  end.

(** What [uploadFile] ends with when the reply [r] is its last one. *)
Definition upload_verdict (r : response) : result upload_result :=
  match upload_outcome r with
  | Ok res => upload_finish res
  | Throw msg => Throw msg
  end.

(** The reading of the retry rule that lets a rejection with
    [folder_not_found] always be followed by a second request for the file:
    whenever the first request of a call is so rejected, the requests of the
    call end with a retry into some folder. *)
Definition always_retried : Prop :=
  forall (Srv : Type) (E : Env Srv) pid folderId fileName content
         (w : world Srv) target rep1 res1 rest,
    log (snd (uploadFile pid folderId fileName content w)) =
      (log w ++ attempt pid fileName content target rep1 :: rest)%list ->
    upload_outcome rep1 = Ok res1 ->
    folder_not_found res1 = true ->
    exists probes h rep2,
      rest = (probes ++ [attempt pid fileName content h rep2])%list.

(** The final segment of a name split at '/'. *)
Definition last_segment (fileName : string) : string :=
  last (JS.split "/"%char fileName) "".

Fixpoint contains (c : ascii) (s : string) : bool :=
  match s with
  | EmptyString => false
  | String x s' => (Ascii.eqb x c || contains c s')%bool
  end.

(** The reading of the rule for new files without exception: whatever the
    directory holds, a file the scanner lists there and the archive has not
    is in the upload queue once when [sync] ends well. *)
Definition always_queued : Prop :=
  forall (Srv : Type) (E : Env Srv) project (w : world Srv) l w'
         dm es p L pid entries rest,
    dir w = Some (Fs.Dir dm es) ->
    JS.get p (scanLocalFiles "" es []) = Some L ->
    sync_action project w = (Ok l, w') ->
    log w' = (log w ++ EvDownload pid (Some entries) :: rest)%list ->
    JS.get p (remoteFilesOf entries) = None ->
    count_occ string_dec (map fst (filesToUpload l)) p = 1%nat.

(** The reading of the naming rule without exception: whatever name with a
    '/' is passed, the file is sent under its final segment. *)
Definition always_last_segment : Prop :=
  forall fileName, contains "/"%char fileName = true ->
    baseNameOf fileName = last_segment fileName.

(** A request of the probing loop: a probe upload or the deletion of the
    probe file. *)
Definition is_probe (pid : string) (e : event) : Prop :=
  (exists folder t reply, e = EvUpload pid folder (probe_form folder t) reply) \/
  (exists entity, e = EvDelete pid entity "doc").

(** The local side of two worlds is the same. *)
Definition same_local {Srv} (w w' : world Srv) : Prop :=
  dir w' = dir w /\ meta w' = meta w /\ log w' = log w /\ ticks w' = ticks w.

(** The file with this time and these bytes is at path [q]. *)
Definition has_file {Srv} (w : world Srv) (q : Fs.path) (m : Z) (c : bytes)
  : Prop :=
  exists root, dir w = Some root /\ Fs.lookup q root = Some (Fs.File m c).

(** The test of [pull] on a path: not forced, a previous pull is recorded,
    and what is at the path is newer than it. *)
Definition locally_newer (force : bool) (lastPull : option Z)
  (d : option Fs.node) (p : Fs.path) : bool :=
  match lastPull, d with
  | Some lp, Some root =>
      (negb force &&
       match Fs.lookup p root with
       | Some n => lp <? Fs.mtime_of n
       | None => false
       end)%bool
  | _, _ => false
  end.

(** What the merge loop queues: for each remote file whose local file
    wins and differs, the path with the local bytes. *)
Definition kept_of (localFiles : JS.Map local_file) (lastPull : option Z)
  (remoteFiles : JS.Map bytes) : list (string * bytes) :=
  flat_map (fun remote =>
    match localWins localFiles lastPull (fst remote) with
    | Some localFile =>
        if bytes_eq_dec (lf_content localFile) (snd remote) then []
        else [(fst remote, lf_content localFile)]
    | None => []
    end) remoteFiles.

(** What the merge loop writes: the remote files whose local file does not
    win. *)
Definition updated_of (localFiles : JS.Map local_file) (lastPull : option Z)
  (remoteFiles : JS.Map bytes) : list string :=
  flat_map (fun remote =>
    match localWins localFiles lastPull (fst remote) with
    | Some _ => []
    | None => [fst remote]
    end) remoteFiles.

(** What the second loop queues: the local files the remote has not. *)
Definition new_of (remoteFiles : JS.Map bytes) (localFiles : JS.Map local_file)
  : list (string * bytes) :=
  flat_map (fun local =>
    if JS.has (fst local) remoteFiles then []
    else [(fst local, lf_content (snd local))]) localFiles.

(** The [localFiles] map of a [sync]: the scan of the directory when the
    state file exists, nothing otherwise; [None] when the directory cannot
    be read. *)
Definition local_snapshot (m : option Meta) (d : option Fs.node)
  : option (JS.Map local_file) :=
  match m with
  | None => Some []
  | Some _ =>
      match d with
      | Some (Fs.Dir _ es) => Some (scanLocalFiles "" es [])
      | _ => None
      end
  end.

(** The snapshot a [sync] takes in a world: a missing directory is made
    first and has nothing in it. *)
Definition snapshot_of {Srv} (w : world Srv) : option (JS.Map local_file) :=
  match dir w with
  | Some root => local_snapshot (meta w) (Some root)
  | None => Some []
  end.

Definition no_download (e : event) : Prop :=
  match e with EvDownload _ _ => False | _ => True end.

(** A list of segments put together again with the separator. *)
Fixpoint unsplit (sep : ascii) (l : list string) : string :=
  match l with
  | [] => ""
  | [s] => s
  | s :: rest => s ++ String sep (unsplit sep rest)
  end.

(** The local files of a directory as the scanner lists them: the files of
    the directory and of its sub-directories whose names, and the names of the
    directories above them, do not begin with a dot; each with its full
    path, its relative path and its modification time. *)
Inductive listed : list (string * Fs.node) -> Fs.path -> string ->
                   push_file -> Z -> Prop :=
| listed_here es cur base name m c :
    In (name, Fs.File m c) es ->
    JS.startsWithDot name = false ->
    listed es cur base
      {| pf_path := (cur ++ [name])%list;
         relativePath := relative_join base name |} m
| listed_below es cur base name dm sub f m :
    In (name, Fs.Dir dm sub) es ->
    JS.startsWithDot name = false ->
    listed sub (cur ++ [name])%list (relative_join base name) f m ->
    listed es cur base f m.

(** The rule for a candidate of [push]. *)
Definition candidate (all : bool) (lastPull : option Z) (m : Z) : Prop :=
  all = true \/ lastPull = None \/ exists t, lastPull = Some t /\ t < m.


(** The paths of the file entries of an archive. *)
Definition file_paths (entries : list ZipEntry) : list Fs.path :=
  map (fun e => Fs.join (entryName e))
      (filter (fun e => negb (isDirectory e)) entries).




(** The tallies after an entry was written. *)
Definition written (c : pull_counts) : pull_counts :=
  {| fileCount := S (fileCount c); skippedCount := skippedCount c;
     skippedFiles := skippedFiles c |}.


(** Induction over a tree, with the property granted for the entries of a
    directory. *)
Fixpoint node_nested_ind (P : Fs.node -> Prop)
  (HF : forall m c, P (Fs.File m c))
  (HD : forall m es, Forall (fun e => P (snd e)) es -> P (Fs.Dir m es))
  (n : Fs.node) : P n :=
  match n with
  | Fs.File m c => HF m c
  | Fs.Dir m es =>
      HD m es
        ((fix go (l : list (string * Fs.node)) : Forall (fun e => P (snd e)) l :=
            match l with
            | [] => Forall_nil _
            | e :: l' => Forall_cons e (node_nested_ind P HF HD (snd e)) (go l')
            end) es)
  end.

(** ** Vocabulary of the further statements *)


(** The state file after a [push] that has sent its files. *)
Definition pushed_at (m : Meta) (t : Z) : Meta :=
  {| projectId := projectId m; projectName := projectName m;
     lastPull := lastPull m; lastPush := Some t; lastSync := lastSync m |}.
(** ** More of JavaScript's strings

    Characters are code units below 256. *)

Module Str.

(** White space and line ends as [trim] sees them: tab to carriage return,
    space, and the no-break space. *)
Definition is_white (c : ascii) : bool :=
  let n := nat_of_ascii c in
  (Nat.eqb n 32 || (Nat.leb 9 n && Nat.leb n 13) || Nat.eqb n 160)%bool.

Fixpoint trimStart (s : string) : string :=
  match s with
  | String c s' => if is_white c then trimStart s' else s
  | EmptyString => s
  end.

Fixpoint trimEnd (s : string) : string :=
  match s with
  | EmptyString => EmptyString
  | String c s' =>
      match trimEnd s' with
      | EmptyString => if is_white c then EmptyString else String c EmptyString
      | r => String c r
      end
  end.

(** [s.trim()] *)
Definition trim (s : string) : string := trimEnd (trimStart s).

(** [s.startsWith(p)] *)
Definition startsWith (p s : string) : bool := String.prefix p s.

(** [s.replace(/^\//, '')] *)
Definition dropLeadingSlash (s : string) : string :=
  match s with
  | String "/"%char r => r
  | _ => s
  end.



End Str.

(** ** Configuration ([src/config.ts]) *)

Module Config.

(** The store of [conf], with the three keys of its schema. *)
Record store : Type := {
  sessionCookie : option string;
  csrf : option string;
  lastProject : option string
}.

(** What [config.ts] sees of its host: the environment variable, the
    working directory, the files by path with their text ([None] for what
    exists and cannot be read as a file), the paths that can be written,
    and the store. The same file is always named by the same path. *)
Record host : Type := {
  OVERLEAF_SESSION : option string;
  cwd : string;
  files : JS.Map (option string);
  writable : string -> bool;
  config : store
}.

Definition with_files (f : JS.Map (option string)) (h : host) : host :=
  {| OVERLEAF_SESSION := OVERLEAF_SESSION h; cwd := cwd h; files := f;
     writable := writable h; config := config h |}.

Definition with_config (c : store) (h : host) : host :=
  {| OVERLEAF_SESSION := OVERLEAF_SESSION h; cwd := cwd h; files := files h;
     writable := writable h; config := c |}.

(** [join(process.cwd(), '.olauth')] *)
Definition olAuthPath (h : host) : string := cwd h ++ "/" ++ ".olauth".

Definition getSessionCookie (h : host) : option string :=
  if JS.truthy (OVERLEAF_SESSION h) then OVERLEAF_SESSION h
  else
    match JS.get (olAuthPath h) (files h) with
    | Some (Some text) =>
        let content := Str.trim text in
        if contains "="%char content
        then
          let cookies := map Str.trim (JS.split ";"%char content) in
          match find (Str.startsWith "overleaf_session2=") cookies with
          | Some sessionCookie =>
              if JS.truthy (Some sessionCookie)
              then nth_error (JS.split "="%char sessionCookie) 1
              else Some content
          | None => Some content
          end
        else Some content
    | _ => sessionCookie (config h)
    end.

Definition setSessionCookie (cookie : string) (h : host) : host :=
  with_config {| sessionCookie := Some cookie; csrf := csrf (config h);
                 lastProject := lastProject (config h) |} h.

Definition getCsrf (h : host) : option string := csrf (config h).

Definition setCsrf (token : string) (h : host) : host :=
  with_config {| sessionCookie := sessionCookie (config h); csrf := Some token;
                 lastProject := lastProject (config h) |} h.

Definition getLastProject (h : host) : option string := lastProject (config h).

Definition setLastProject (projectId : string) (h : host) : host :=
  with_config {| sessionCookie := sessionCookie (config h);
                 csrf := csrf (config h);
                 lastProject := Some projectId |} h.

Definition clearConfig (h : host) : host :=
  with_config {| sessionCookie := None; csrf := None; lastProject := None |} h.

(** [saveOlAuth(cookie, path)]; [None] when the write throws. *)
Definition saveOlAuth (cookie : string) (path : option string) (h : host)
  : option host :=
  let authPath :=
    match path with
    | Some p => if JS.truthy path then p else olAuthPath h
    | None => olAuthPath h
    end in
  if writable h authPath
  then Some (with_files
               (JS.set authPath (Some ("overleaf_session2=" ++ cookie)) (files h))
               h)
  else None.

End Config.




(** ** The project tree ([findEntityByPath] and what is built on it) *)

Module Tree.

Inductive kind : Type := doc | file | folder.


(** [DocEntry] and [FileEntry] *)
Record Entry : Type := { _id : string; name : string }.

(** [FolderEntry]: its [_id], its [name], its [folders], [docs] and
    [fileRefs]; an array the page leaves out reads as empty. *)
Inductive FolderEntry : Type :=
| Folder (i n : string) (folders : list FolderEntry) (docs fileRefs : list Entry).

Definition id_of (f : FolderEntry) : string :=
  match f with Folder i _ _ _ _ => i end.

Definition name_of (f : FolderEntry) : string :=
  match f with Folder _ n _ _ _ => n end.

End Tree.

(** What [findEntityByPath] returns. *)
Module Entity.

Record t : Type := { id : string; type : Tree.kind; name : string }.

End Entity.

(** [docPath === normalizedTarget || doc.name === normalizedTarget], where
    [docPath] is the name below [currentPath]. *)
Definition matches (normalizedTarget currentPath name : string) : bool :=
  (String.eqb (relative_join currentPath name) normalizedTarget ||
   String.eqb name normalizedTarget)%bool.

Definition doc_entity (d : Tree.Entry) : Entity.t :=
  {| Entity.id := Tree._id d; Entity.type := Tree.doc;
     Entity.name := Tree.name d |}.

Definition file_entity (f : Tree.Entry) : Entity.t :=
  {| Entity.id := Tree._id f; Entity.type := Tree.file;
     Entity.name := Tree.name f |}.

Definition folder_entity (f : Tree.FolderEntry) : Entity.t :=
  {| Entity.id := Tree.id_of f; Entity.type := Tree.folder;
     Entity.name := Tree.name_of f |}.

(** [searchFolder(folder, currentPath)]: the docs, then the files, then the
    sub-folders, each sub-folder before what it holds. *)
Fixpoint searchFolder (normalizedTarget : string) (folder : Tree.FolderEntry)
  (currentPath : string) {struct folder} : option Entity.t :=
  match folder with
  | Tree.Folder _ _ folders docs fileRefs =>
      match find (fun d => matches normalizedTarget currentPath (Tree.name d))
                 docs with
      | Some d => Some (doc_entity d)
      | None =>
          match find (fun f => matches normalizedTarget currentPath (Tree.name f))
                     fileRefs with
          | Some f => Some (file_entity f)
          | None =>
              (fix subfolders (l : list Tree.FolderEntry) : option Entity.t :=
                 match l with
                 | [] => None
                 | subfolder :: rest =>
                     let folderPath :=
                       relative_join currentPath (Tree.name_of subfolder) in
                     if matches normalizedTarget currentPath
                                (Tree.name_of subfolder)
                     then Some (folder_entity subfolder)
                     else match searchFolder normalizedTarget subfolder
                                             folderPath with
                          | Some found => Some found
                          | None => subfolders rest
                          end
                 end) folders
          end
      end
  end.

(** The search [findEntityByPath] runs on the [rootFolder] of the page. *)
Definition findEntityIn (rootFolder : option (list Tree.FolderEntry))
  (targetPath : string) : option Entity.t :=
  let normalizedTarget := Str.dropLeadingSlash targetPath in
  match rootFolder with
  | Some (root :: _) => searchFolder normalizedTarget root ""
  | _ => None
  end.

(** The page of a project with its tree, and the renaming of an entity:
    what the client asks besides the calls of [Env]. [None] stands for a
    thrown error, [Some false] for a response that is not [ok]. *)
Class Pages (Srv : Type) : Type := {
  env_getProjectTree :
    Srv -> string -> option (option (list Tree.FolderEntry)) * Srv;
  env_rename : Srv -> string -> string -> string -> string -> option bool * Srv
}.

Section Entities.
Context {Srv : Type} `{Env Srv} `{Pages Srv}.





End Entities.

(** The docs, files and folders of a tree, each with its path from
    [currentPath], in the order of the search. *)
Fixpoint entities_of (folder : Tree.FolderEntry) (currentPath : string)
  {struct folder} : list (string * Entity.t) :=
  match folder with
  | Tree.Folder _ _ folders docs fileRefs =>
      (map (fun d => (relative_join currentPath (Tree.name d), doc_entity d)) docs
       ++ map (fun f => (relative_join currentPath (Tree.name f), file_entity f))
              fileRefs
       ++ flat_map (fun sub =>
            let p := relative_join currentPath (Tree.name_of sub) in
            (p, folder_entity sub) :: entities_of sub p) folders)%list
  end.

(** An entity is the target by its path or by its bare name. *)
Definition answers (normalizedTarget : string) (pe : string * Entity.t) : bool :=
  (String.eqb (fst pe) normalizedTarget ||
   String.eqb (Entity.name (snd pe)) normalizedTarget)%bool.

(** The entity is in the tree of the folder, at this path from
    [currentPath]. *)
Inductive located : Tree.FolderEntry -> string -> string -> Entity.t -> Prop :=
| located_doc i n fs ds rs cur d :
    In d ds ->
    located (Tree.Folder i n fs ds rs) cur
            (relative_join cur (Tree.name d)) (doc_entity d)
| located_file i n fs ds rs cur f :
    In f rs ->
    located (Tree.Folder i n fs ds rs) cur
            (relative_join cur (Tree.name f)) (file_entity f)
| located_folder i n fs ds rs cur sub :
    In sub fs ->
    located (Tree.Folder i n fs ds rs) cur
            (relative_join cur (Tree.name_of sub)) (folder_entity sub)
| located_below i n fs ds rs cur sub p e :
    In sub fs ->
    located sub (relative_join cur (Tree.name_of sub)) p e ->
    located (Tree.Folder i n fs ds rs) cur p e.

(** Induction over a tree of folders, with the property granted for the
    sub-folders. *)
Fixpoint FolderEntry_nested_ind (P : Tree.FolderEntry -> Prop)
  (HF : forall i n fs ds rs, Forall P fs -> P (Tree.Folder i n fs ds rs))
  (f : Tree.FolderEntry) : P f :=
  match f with
  | Tree.Folder i n fs ds rs =>
      HF i n fs ds rs
        ((fix go (l : list Tree.FolderEntry) : Forall P l :=
            match l with
            | [] => Forall_nil _
            | x :: l' => Forall_cons x (FolderEntry_nested_ind P HF x) (go l')
            end) fs)
  end.

(** ** Further examples *)

Module Cases.







(** A host with no variable, no [.olauth] and an empty store. *)
Definition host : Config.host :=
  {| Config.OVERLEAF_SESSION := None; Config.cwd := "/home/me/paper";
     Config.files := []; Config.writable := fun _ => true;
     Config.config := {| Config.sessionCookie := None; Config.csrf := None;
                         Config.lastProject := None |} |}.

(** A project with a doc and a figure at its root and a doc in a folder. *)
Definition tree : Tree.FolderEntry :=
  Tree.Folder "r0" "rootFolder"
    [ Tree.Folder "f1" "sections" []
        [ {| Tree._id := "d2"; Tree.name := "intro.tex" |} ] [] ]
    [ {| Tree._id := "d1"; Tree.name := "main.tex" |} ]
    [ {| Tree._id := "i1"; Tree.name := "plot.png" |} ].

#[global] Instance pages : Pages Demo.service := {|
  env_getProjectTree := fun s _ => (Some (Some [tree]), s);
  env_rename := fun s _ _ _ _ => (Some true, s)
|}.

End Cases.

(** * Properties *)

(** ** Hexadecimal identifiers *)

Lemma hex_val_char (a : ascii) (d : Z) :
  JS.hex_val a = Some d ->
  0 <= d < 16 /\ JS.is_space a = false /\
  a <> "-"%char /\ a <> "+"%char /\ a <> "x"%char /\ a <> "X"%char.
Proof.
  destruct a as [[] [] [] [] [] [] [] []]; vm_compute; intro E;
    try discriminate E; injection E as <-;
    repeat split; try discriminate; intros ?; discriminate.
Qed.

Lemma parseInt16_plain (a : ascii) (s : string) :
  JS.is_space a = false -> a <> "-"%char -> a <> "+"%char ->
  (forall c r, s = String c r -> c <> "x"%char /\ c <> "X"%char) ->
  JS.parseInt16 (String a s) =
  match JS.hex_prefix (String a s) None with
  | None => JS.NaN
  | Some v => JS.Num v
  end.
Proof.
  intros Hsp Hm Hp Hx. unfold JS.parseInt16. cbn [JS.skip_spaces]. rewrite Hsp.
  destruct (Ascii.eqb_spec a "0"%char) as [-> | Hz].
  - destruct s as [| c r]; [reflexivity |].
    destruct (Hx c r eq_refl) as [H1 H2].
    destruct c as [[] [] [] [] [] [] [] []]; try reflexivity;
      exfalso; (apply H1; reflexivity) || (apply H2; reflexivity).
  - destruct a as [[] [] [] [] [] [] [] []]; try reflexivity;
      exfalso; (apply Hm; reflexivity) || (apply Hp; reflexivity)
               || (apply Hz; reflexivity).
Qed.

(** The last eight characters of an identifier read as a counter. *)
Lemma hex_id_counter (pid : string) :
  is_hex_id pid = true ->
  exists counter, 0 <= counter < 2 ^ 32 /\
    JS.parseInt16 (JS.slice_from 16 pid) = JS.Num counter.
Proof.
  intros H. apply andb_prop in H as [Hl Hh]. apply Nat.eqb_eq in Hl.
  do 24 (destruct pid as [| ? pid]; simpl in Hl; [discriminate Hl |]).
  destruct pid; simpl in Hl; [| discriminate Hl]. clear Hl.
  cbn [all_hex] in Hh.
  repeat match type of Hh with
         | context [JS.hex_val ?x] =>
             destruct (JS.hex_val x) eqn:?; [| discriminate Hh]
         end.
  clear Hh. unfold JS.slice_from. cbn [String.length substring Nat.sub].
  match goal with
  | Ex : JS.hex_val ?x = Some _, Ey : JS.hex_val ?y = Some _
    |- context [JS.parseInt16 (String ?x (String ?y _))] =>
      destruct (hex_val_char _ _ Ex) as (_ & Hs & Hm & Hp & _);
      destruct (hex_val_char _ _ Ey) as (_ & _ & _ & _ & Hx1 & Hx2)
  end.
  rewrite parseInt16_plain;
    [| assumption | assumption | assumption
     | intros c r E; injection E as <- _; split; assumption].
  cbn [JS.hex_prefix].
  repeat match goal with
         | E : JS.hex_val ?x = Some _ |- context [JS.hex_val ?x] =>
             rewrite E; apply hex_val_char in E; destruct E as [E _]
         end.
  eexists. split; [| reflexivity]. lia.
Qed.

Lemma flat_map_filter {A B} (P : A -> bool) (f : A -> B) (l : list A) :
  flat_map (fun i => if P i then [f i] else []) l = map f (filter P l).
Proof.
  induction l as [| x l IH]; simpl; [reflexivity |].
  destruct (P x); simpl; rewrite IH; reflexivity.
Qed.

Lemma map_filter_opp {B} (c : Z) (h : Z -> B) (l : list Z) :
  map (fun o => h (c + o)) (filter (fun o => 0 <=? c + o) (map Z.opp l)) =
  map (fun i => h (c - i)) (filter (fun i => 0 <=? c - i) l).
Proof.
  induction l as [| x l IH]; simpl; [reflexivity |].
  replace (c + - x) with (c - x) by lia.
  destruct (0 <=? c - x); simpl; rewrite IH; [| reflexivity].
  replace (c + - x) with (c - x) by lia. reflexivity.
Qed.

Lemma computeRootFolderId_offset (pid : string) (counter : Z) :
  JS.parseInt16 (JS.slice_from 16 pid) = JS.Num counter ->
  computeRootFolderId pid = folder_handle (JS.slice_to 16 pid) (counter + -1).
Proof.
  intros Hc. unfold computeRootFolderId, folder_handle. rewrite Hc.
  replace (counter + -1) with (counter - 1) by lia. reflexivity.
Qed.

Lemma probe_candidates_window (pid : string) (counter : Z) :
  JS.parseInt16 (JS.slice_from 16 pid) = JS.Num counter ->
  probe_candidates pid =
  computeRootFolderId pid ::
  map (fun i => folder_handle (JS.slice_to 16 pid) (counter - i))
      (filter (fun i => 0 <=? counter - i) (JS.range 2 49)) ++
  map (fun i => folder_handle (JS.slice_to 16 pid) (counter + i)) (JS.range 1 50).
Proof.
  intros Hc. unfold probe_candidates. rewrite Hc.
  rewrite <- (flat_map_filter (fun i => 0 <=? counter - i)). reflexivity.
Qed.

(** The candidates are the handles at the offsets of the window, in order. *)
Lemma probe_candidates_offsets (pid : string) (counter : Z) :
  JS.parseInt16 (JS.slice_from 16 pid) = JS.Num counter ->
  probe_candidates pid =
  map (fun o => folder_handle (JS.slice_to 16 pid) (counter + o))
      (probe_offsets counter).
Proof.
  intros Hc.
  rewrite (probe_candidates_window pid counter Hc),
          (computeRootFolderId_offset pid counter Hc).
  unfold probe_offsets.
  rewrite map_cons, map_app,
    (map_filter_opp counter (folder_handle (JS.slice_to 16 pid))).
  reflexivity.
Qed.

(** ** The world monad *)

Section Monad.
Context {Srv : Type} `{Env Srv}.

Lemma bind_inv {A B} (c : M Srv A) (k : A -> M Srv B) w r w' :
  bind c k w = (r, w') ->
  (exists a w1, c w = (Ok a, w1) /\ k a w1 = (r, w')) \/
  (exists msg, c w = (Throw msg, w') /\ r = Throw msg).
Proof.
  unfold bind. destruct (c w) as [[a | msg] w1]; intros E.
  - left. exists a, w1. split; [reflexivity | exact E].
  - right. injection E as <- <-. exists msg. split; reflexivity.
Qed.

Lemma bind_ok {A B} (c : M Srv A) (k : A -> M Srv B) w a w1 :
  c w = (Ok a, w1) -> bind c k w = k a w1.
Proof. unfold bind. intros ->. reflexivity. Qed.

Lemma bind_throw {A B} (c : M Srv A) (k : A -> M Srv B) w msg w1 :
  c w = (Throw msg, w1) -> bind c k w = (Throw msg, w1).
Proof. unfold bind. intros ->. reflexivity. Qed.

End Monad.

(** ** Probing *)

Section Probing.
Context {Srv : Type} `{Env Srv}.

(** The loop tries the candidates in order, one probe upload each, stops at
    the first accepted one and returns it; it never throws and leaves the
    directory and the state file alone. *)
Lemma probe_loop_trace (pid : string) (candidates : list string) :
  forall (w : world Srv) r w',
  probe_loop pid candidates w = (r, w') ->
  dir w' = dir w /\ meta w' = meta w /\
  exists evs, log w' = (log w ++ evs)%list /\
    match r with
    | Ok (Some f) =>
        exists pre post, candidates = (pre ++ f :: post)%list /\
          map probe_view (uploads evs) =
          (map (fun c => (c, false)) pre ++ [(f, true)])%list
    | Ok None =>
        map probe_view (uploads evs) = map (fun c => (c, false)) candidates
    | Throw _ => False
    end.
Proof.
  induction candidates as [| folderId rest IH]; intros w r w' E.
  - injection E as <- <-. repeat split. exists []. split; [| reflexivity].
    symmetry. apply app_nil_r.
  - cbn [probe_loop] in E. unfold bind at 1 in E. cbn [now] in E.
    unfold bind at 1 in E. unfold fetch_upload in E. cbn [srv] in E.
    destruct (env_upload (srv w) pid folderId
                (probe_form folderId (env_clock (ticks w)))) as [rep s] eqn:Eu.
    destruct (probe_accepted rep) eqn:Ea.
    + unfold bind, try, deleteEntity in E. cbn in E.
      destruct (env_delete s pid (probe_entity rep) "doc") as [d s'].
      assert (E' : (Ok (Some folderId) : result (option string),
                    emit (EvDelete pid (probe_entity rep) "doc")
                      (with_srv s'
                         (emit (EvUpload pid folderId
                                  (probe_form folderId (env_clock (ticks w))) rep)
                            (with_srv s
                               {| srv := srv w; ticks := S (ticks w);
                                  dir := dir w; meta := meta w;
                                  log := log w |})))) = (r, w')).
      { destruct d as [[] |]; exact E. }
      injection E' as <- <-. cbn. repeat split.
      eexists. split; [rewrite <- app_assoc; reflexivity |].
      exists [], rest. split; [reflexivity |]. cbn. unfold probe_view. cbn.
      rewrite Ea. reflexivity.
    + apply IH in E. cbn in E. destruct E as (Hd & Hm & evs & Hl & Hr).
      repeat split; try assumption.
      exists (EvUpload pid folderId
                (probe_form folderId (env_clock (ticks w))) rep :: evs).
      split; [rewrite Hl, <- app_assoc; reflexivity |].
      assert (Hpv : probe_view (folderId, rep) = (folderId, false))
        by (unfold probe_view; cbn [fst snd]; rewrite Ea; reflexivity).
      cbn [uploads map]. rewrite Hpv.
      destruct r as [[f |] | msg]; [| cbn [map]; f_equal; exact Hr | exact Hr].
      destruct Hr as (pre & post & -> & Hv).
      exists (folderId :: pre), post. split; [reflexivity |].
      cbn [map app]. f_equal. exact Hv.
Qed.

End Probing.

Section ProbingWindow.
Context {Srv : Type} `{Env Srv}.

(** C6. For a project identifier of 24 hexadecimal digits with counter [c],
    [probeRootFolderId] builds its candidates in one fixed order, the handles
    at offset -1, then -2 down to -50 (those whose counter stays
    non-negative), then +1 up to +50; it sends one probe upload per
    candidate in that order, returns the first candidate whose probe is
    accepted (no later candidate is tried), and returns null, after trying
    them all, when none is accepted. *)
Theorem probeRootFolderId_window (pid : string) (w : world Srv) r w' :
  is_hex_id pid = true ->
  probeRootFolderId pid w = (r, w') ->
  exists counter, 0 <= counter < 2 ^ 32 /\
    JS.parseInt16 (JS.slice_from 16 pid) = JS.Num counter /\
    let candidates :=
      map (fun o => folder_handle (JS.slice_to 16 pid) (counter + o))
          (probe_offsets counter) in
    probe_candidates pid = candidates /\
    exists evs, log w' = (log w ++ evs)%list /\
      match r with
      | Ok (Some f) =>
          exists pre post, candidates = (pre ++ f :: post)%list /\
            map probe_view (uploads evs) =
            (map (fun c => (c, false)) pre ++ [(f, true)])%list
      | Ok None =>
          map probe_view (uploads evs) = map (fun c => (c, false)) candidates
      | Throw _ => False
      end.
Proof.
  intros Hid E.
  destruct (hex_id_counter pid Hid) as (counter & Hb & Hc).
  exists counter. split; [exact Hb |]. split; [exact Hc |].
  pose proof (probe_candidates_offsets pid counter Hc) as Hcand.
  cbv zeta. split; [exact Hcand |].
  unfold probeRootFolderId in E. rewrite Hcand in E.
  apply probe_loop_trace in E. destruct E as (_ & _ & evs & Hl & Hr).
  exists evs. split; [exact Hl | exact Hr].
Qed.

End ProbingWindow.

(** With room below the counter the window is -1 to -50, then +1 to +50;
    near zero the offsets that would go below zero are left out. *)
Example probe_offsets_100 :
  probe_offsets 100 = (map Z.opp (JS.range 1 50) ++ JS.range 1 50)%list.
Proof. vm_compute. reflexivity. Qed.

Example probe_offsets_3 :
  probe_offsets 3 = ([-1; -2; -3] ++ JS.range 1 50)%list.
Proof. vm_compute. reflexivity. Qed.

Lemma probeRootFolderId_window_witness :
  is_hex_id Demo.project = true /\
  fst (probeRootFolderId Demo.project (Demo.start Demo.shifted None None))
  = Ok (Some "65a1b2c3d4e5f60718293a48") /\
  exists counter,
    JS.parseInt16 (JS.slice_from 16 Demo.project) = JS.Num counter /\
    probe_candidates Demo.project =
    map (fun o => folder_handle (JS.slice_to 16 Demo.project) (counter + o))
        (probe_offsets counter).
Proof.
  split; [reflexivity |]. split; [reflexivity |].
  destruct (probeRootFolderId_window Demo.project
              (Demo.start Demo.shifted None None) _ _ eq_refl
              (surjective_pairing _)) as (c & _ & Hc & Hcand & _).
  exists c. split; [exact Hc | exact Hcand].
Defined.

(** ** Uploading one file *)

Section Upload.
Context {Srv : Type} `{Env Srv}.

Lemma getRootFolderId_quiet (pid : string) (w : world Srv) r w' :
  getRootFolderId pid w = (r, w') ->
  (exists root, r = Ok root) /\
  log w' = log w /\ dir w' = dir w /\ meta w' = meta w /\ ticks w' = ticks w.
Proof.
  unfold getRootFolderId, bind, try, getProjectInfo, call.
  destruct (env_getProjectInfo (srv w) pid) as [[[[[| [fid |] tl] |]] |] s];
    intros E; cbn in E;
    repeat match type of E with
           | context [if ?c then _ else _] => destruct c
           end;
    injection E as <- <-; cbn; repeat split; eexists; reflexivity.
Qed.

Lemma targetFolderOf_quiet (pid : string) (folderId : option string)
  (w : world Srv) r w' :
  targetFolderOf pid folderId w = (r, w') ->
  (exists target, r = Ok target) /\
  log w' = log w /\ dir w' = dir w /\ meta w' = meta w /\ ticks w' = ticks w.
Proof.
  unfold targetFolderOf.
  destruct folderId as [f |]; [destruct (JS.truthy (Some f)) |];
    try apply getRootFolderId_quiet.
  intros E. injection E as <- <-. repeat split. eexists; reflexivity.
Qed.

(** With a folder given, that folder is the target. *)
Lemma targetFolderOf_given (pid f : string) (w : world Srv) :
  JS.truthy (Some f) = true ->
  targetFolderOf pid (Some f) w = (Ok f, w).
Proof. unfold targetFolderOf. intros ->. reflexivity. Qed.

Lemma tryUpload_run (pid bn mt : string) (content : bytes) (fid : string)
  (w : world Srv) :
  exists rep w1,
    tryUpload pid bn mt content fid w = (upload_outcome rep, w1) /\
    log w1 = (log w ++ [EvUpload pid fid (payload_form fid bn mt content) rep])%list /\
    dir w1 = dir w /\ meta w1 = meta w /\ ticks w1 = ticks w.
Proof.
  unfold tryUpload, bind, fetch_upload.
  destruct (env_upload (srv w) pid fid (payload_form fid bn mt content))
    as [rep s].
  exists rep. eexists. split; [reflexivity |]. cbn. repeat split.
Qed.

(** An HTTP failure is never mistaken for [folder_not_found]. *)
Lemma http_error_not_folder_not_found (status : Z) (text : string) :
  String.eqb (JS.toStringDec status ++ " - " ++ text) "folder_not_found" = false.
Proof.
  apply String.eqb_neq. intros E.
  assert (Hsp : forall a b' c',
             (a ++ " - " ++ b')%string = c' ->
             exists i, String.get i c' = Some " "%char).
  { clear. induction a as [| x a IH]; intros b' c' <-.
    - exists 0%nat. reflexivity.
    - destruct (IH b' _ eq_refl) as [i Hi]. exists (S i). exact Hi. }
  destruct (Hsp _ _ _ E) as [i Hi].
  do 17 (destruct i as [| i]; [discriminate Hi |]). discriminate Hi.
Qed.

Lemma folder_not_found_reply (rep : response) :
  match upload_outcome rep with
  | Ok res => folder_not_found res
  | Throw _ => false
  end = rejected_folder_not_found rep.
Proof.
  destruct rep as [| [] status text [data |]]; cbn; try reflexivity.
  - destruct (is_false (success data) && is_string (error data) "folder_not_found")%bool
      eqn:E; cbn; [reflexivity |].
    unfold folder_not_found. cbn. destruct (is_false (success data)); reflexivity.
  - unfold folder_not_found. cbn. apply http_error_not_folder_not_found.
  - unfold folder_not_found. cbn. apply http_error_not_folder_not_found.
Qed.

(** C7 (amended). [uploadFile] sends its request once to the target folder.
    It sends it a second time only when the service answered the first one
    with [folder_not_found] and probing then returned a handle different
    from the target: the second request goes to the probed handle, and its
    reply decides the call (a failure is thrown, nothing further is sent).
    When probing finds no handle, or finds the target again, nothing is
    sent again and the call throws the [folder_not_found] failure. Any other
    reply to the first request, a failure included, ends the call at once. *)
Theorem uploadFile_retry (pid : string) (folderId : option string)
  (fileName : string) (content : bytes) (w : world Srv) r w' :
  uploadFile pid folderId fileName content w = (r, w') ->
  exists target w0 rep1 w1,
    targetFolderOf pid folderId w = (Ok target, w0) /\ log w0 = log w /\
    log w1 = (log w ++ [attempt pid fileName content target rep1])%list /\
    if rejected_folder_not_found rep1
    then
      exists probed wp,
        probeRootFolderId pid w1 = (Ok probed, wp) /\
        match probed with
        | Some h =>
            if (JS.truthy (Some h) && negb (String.eqb h target))%bool
            then exists rep2,
                log w' = (log wp ++ [attempt pid fileName content h rep2])%list /\
                r = upload_verdict rep2
            else w' = wp /\ r = Throw "Failed to upload file: folder_not_found"
        | None => w' = wp /\ r = Throw "Failed to upload file: folder_not_found"
        end
    else w' = w1 /\ r = upload_verdict rep1.
Proof.
  intros E. unfold uploadFile in E.
  destruct (targetFolderOf pid folderId w) as [rt w0] eqn:Et.
  destruct (targetFolderOf_quiet _ _ _ _ _ Et) as ((target & ->) & Hl0 & _).
  rewrite (bind_ok _ _ _ _ _ Et) in E.
  destruct (tryUpload_run pid (baseNameOf fileName)
              (mimeTypeOf (baseNameOf fileName)) content target w0)
    as (rep1 & w1 & Et1 & Hl1 & _).
  exists target, w0, rep1, w1. split; [reflexivity |]. split; [exact Hl0 |].
  split; [rewrite Hl1, Hl0; reflexivity |].
  rewrite <- folder_not_found_reply. unfold upload_verdict.
  destruct (upload_outcome rep1) as [res1 | msg1] eqn:Eo1.
  2:{ rewrite (bind_throw _ _ _ _ _ Et1) in E. injection E as <- <-.
      split; reflexivity. }
  rewrite (bind_ok _ _ _ _ _ Et1) in E.
  destruct (folder_not_found res1) eqn:Ef.
  2:{ cbn in E. injection E as <- <-. split; reflexivity. }
  assert (Hfin : upload_finish res1 = Throw "Failed to upload file: folder_not_found").
  { unfold folder_not_found in Ef. apply andb_prop in Ef as [Hs He].
    unfold upload_finish. rewrite Hs.
    destruct (ur_error res1) as [e |]; [| discriminate He].
    cbn in He. apply String.eqb_eq in He. subst e. reflexivity. }
  destruct (probeRootFolderId pid w1) as [rp wp] eqn:Ep.
  pose proof (probe_loop_trace _ _ _ _ _ Ep) as (_ & _ & evs & _ & Hrp).
  destruct rp as [probed | msg]; [| contradiction]. clear evs Hrp.
  exists probed, wp. split; [reflexivity |].
  unfold bind at 1 in E. unfold bind at 1 in E. rewrite Ep in E.
  destruct probed as [h |].
  - destruct (JS.truthy (Some h) && negb (String.eqb h target))%bool.
    + destruct (tryUpload_run pid (baseNameOf fileName)
                  (mimeTypeOf (baseNameOf fileName)) content h wp)
        as (rep2 & w2 & Et2 & Hl2 & _).
      rewrite Et2 in E. exists rep2.
      destruct (upload_outcome rep2) as [res2 | msg2];
        injection E as <- <-; split; (exact Hl2 || reflexivity).
    + cbn in E. injection E as <- <-. split; [reflexivity | exact Hfin].
  - cbn in E. injection E as <- <-. split; [reflexivity | exact Hfin].
Qed.

Lemma probe_loop_events (pid : string) (candidates : list string) :
  forall (w : world Srv) r w',
  probe_loop pid candidates w = (r, w') ->
  exists evs, log w' = (log w ++ evs)%list /\ Forall (is_probe pid) evs.
Proof.
  induction candidates as [| folderId rest IH]; intros w r w' E.
  - injection E as <- <-. exists []. split; [symmetry; apply app_nil_r | constructor].
  - cbn [probe_loop] in E. unfold bind at 1 in E. cbn [now] in E.
    unfold bind at 1 in E. unfold fetch_upload in E. cbn [srv] in E.
    destruct (env_upload (srv w) pid folderId
                (probe_form folderId (env_clock (ticks w)))) as [rep s] eqn:Eu.
    assert (Hup : is_probe pid (EvUpload pid folderId
                    (probe_form folderId (env_clock (ticks w))) rep))
      by (left; eauto).
    destruct (probe_accepted rep).
    + unfold bind, try, deleteEntity in E. cbn in E.
      destruct (env_delete s pid (probe_entity rep) "doc") as [d s'].
      exists [EvUpload pid folderId (probe_form folderId (env_clock (ticks w))) rep;
              EvDelete pid (probe_entity rep) "doc"].
      split.
      * destruct d as [[] |]; injection E as <- <-; cbn;
          rewrite <- app_assoc; reflexivity.
      * apply Forall_cons; [exact Hup |].
        apply Forall_cons; [right; eauto | apply Forall_nil].
    + apply IH in E. cbn in E. destruct E as (evs & Hl & Hf).
      exists (EvUpload pid folderId
                (probe_form folderId (env_clock (ticks w))) rep :: evs).
      split; [rewrite Hl, <- app_assoc; reflexivity |].
      constructor; assumption.
Qed.

(** The name [uploadFile] sends a file under, and where its requests go. *)
Lemma uploadFile_requests (pid fileName : string) (content : bytes)
  (w : world Srv) r w' :
  uploadFile pid None fileName content w = (r, w') ->
  (last_segment fileName <> "" -> baseNameOf fileName = last_segment fileName) /\
  (last_segment fileName = "" -> baseNameOf fileName = fileName) /\
  exists root w0 rep1 rest,
    getRootFolderId pid w = (Ok root, w0) /\
    log w' =
      (log w ++
       EvUpload pid root
         {| targetFolderId := root; name := baseNameOf fileName;
            type := mimeTypeOf (baseNameOf fileName); qqfile := content |} rep1
       :: rest)%list /\
    Forall (fun e => is_probe pid e \/
                     exists folder reply form,
                       e = EvUpload pid folder form reply /\
                       name form = baseNameOf fileName /\
                       targetFolderId form = folder) rest.
Proof.
  intros E.
  assert (Hseg : forall s, JS.pop (JS.split "/"%char s) = Some (last_segment s)).
  { intros s. unfold JS.pop, last_segment.
    destruct (JS.split "/"%char s) eqn:Es; [| reflexivity].
    destruct s as [| c s']; [discriminate Es |]. cbn in Es.
    destruct (Ascii.eqb c "/"%char); [discriminate Es |].
    destruct (JS.split "/"%char s'); discriminate Es. }
  split; [| split].
  - intros Hne. unfold baseNameOf. rewrite Hseg. cbn.
    destruct (String.eqb_spec (last_segment fileName) ""); [contradiction | reflexivity].
  - intros He. unfold baseNameOf. rewrite Hseg, He. reflexivity.
  - apply uploadFile_retry in E.
    destruct E as (target & w0 & rep1 & w1 & Et & _ & Hl1 & Hrest).
    exists target, w0, rep1. unfold targetFolderOf in Et.
    destruct (rejected_folder_not_found rep1).
    + destruct Hrest as (probed & wp & Ep & Hp).
      apply probe_loop_events in Ep. destruct Ep as (evs & Hlp & Hev).
      assert (Hev' : Forall (fun e => is_probe pid e \/
                       exists folder reply form,
                         e = EvUpload pid folder form reply /\
                         name form = baseNameOf fileName /\
                         targetFolderId form = folder) evs).
      { eapply Forall_impl; [| exact Hev]. intros e He. left. exact He. }
      destruct probed as [h |];
        [destruct (JS.truthy (Some h) && negb (String.eqb h target))%bool |].
      * destruct Hp as (rep2 & Hl2 & _).
        exists (evs ++ [attempt pid fileName content h rep2])%list.
        split; [exact Et |]. split.
        { rewrite Hl2, Hlp, Hl1, <- !app_assoc. reflexivity. }
        apply Forall_app. split; [exact Hev' |].
        constructor; [| constructor]. right. unfold attempt, payload_form.
        eexists _, _, _. split; [reflexivity |]. split; reflexivity.
      * destruct Hp as [-> _]. exists evs. split; [exact Et |].
        split; [rewrite Hlp, Hl1, <- app_assoc; reflexivity | exact Hev'].
      * destruct Hp as [-> _]. exists evs. split; [exact Et |].
        split; [rewrite Hlp, Hl1, <- app_assoc; reflexivity | exact Hev'].
    + destruct Hrest as [-> _]. exists []. split; [exact Et |].
      split; [rewrite Hl1; reflexivity | constructor].
Qed.

End Upload.

Lemma uploadFile_retry_witness :
  exists target w0,
    targetFolderOf Demo.project None (Demo.start Demo.shifted None None)
    = (Ok target, w0) /\
    fst (uploadFile Demo.project None "fig/a.png" (Demo.b "x")
           (Demo.start Demo.shifted None None))
    = Ok {| ur_success := true; ur_error := None;
            entityId := Some "e1"; entityType := Some "doc" |}.
Proof.
  destruct (uploadFile_retry Demo.project None "fig/a.png" (Demo.b "x")
              (Demo.start Demo.shifted None None) _ _ (surjective_pairing _))
    as (target & w0 & _ & _ & Ht & _).
  exists target, w0. split; [exact Ht | vm_compute; reflexivity].
Defined.

(** C7, as stated, fails: the service rejects the first request with
    [folder_not_found], probing then finds the very folder that was tried,
    and the file is not sent a second time (the call throws). *)
Lemma uploadFile_not_always_retried : ~ always_retried.
Proof.
  intros Hc.
  pose (run := uploadFile Demo.project None "a.tex" (Demo.b "x") Late.start).
  assert (Hlog : log (snd run) =
                 (log Late.start ++
                  attempt Demo.project "a.tex" (Demo.b "x")
                    "65a1b2c3d4e5f60718293a4a" (Late.reply 0)
                  :: tl (log (snd run)))%list)
    by (vm_compute; reflexivity).
  destruct (Hc nat Late.env Demo.project None "a.tex" (Demo.b "x")
              Late.start _ _
              {| ur_success := false; ur_error := Some "folder_not_found";
                 entityId := None; entityType := None |} _
              Hlog eq_refl eq_refl) as (probes & h & rep2 & Hrest).
  apply (f_equal (fun l => last l (EvDownload "" None))) in Hrest.
  rewrite last_last in Hrest. vm_compute in Hrest. discriminate Hrest.
Qed.

(** The same when probing finds no folder at all: one request for the file,
    then the probes, then the failure. *)
Example uploadFile_probing_fails :
  fst (uploadFile Demo.project None "a.tex" (Demo.b "x")
         (Demo.start Demo.lost None None))
  = Throw "Failed to upload file: folder_not_found" /\
  List.length
    (filter (fun x => String.eqb (fst x) "65a1b2c3d4e5f60718293a4a")
       (uploads (log (snd (uploadFile Demo.project None "a.tex" (Demo.b "x")
                             (Demo.start Demo.lost None None))))))
  = 2%nat /\
  List.length
    (uploads (log (snd (uploadFile Demo.project None "a.tex" (Demo.b "x")
                          (Demo.start Demo.lost None None)))))
  = 101%nat.
Proof. vm_compute. repeat split. Qed.


(** ** Maps in insertion order *)

Lemma get_set_same {V} (k : string) (v : V) (m : JS.Map V) :
  JS.get k (JS.set k v m) = Some v.
Proof.
  induction m as [| [k' v'] m IH]; cbn.
  - rewrite String.eqb_refl. reflexivity.
  - destruct (String.eqb k' k) eqn:E; cbn.
    + rewrite String.eqb_refl. reflexivity.
    + rewrite E. exact IH.
Qed.

Lemma get_set_other {V} (k k' : string) (v : V) (m : JS.Map V) :
  k' <> k -> JS.get k' (JS.set k v m) = JS.get k' m.
Proof.
  intros Hne. induction m as [| [k0 v0] m IH]; cbn.
  - destruct (String.eqb_spec k k'); [congruence | reflexivity].
  - destruct (String.eqb_spec k0 k) as [-> | Hk]; cbn.
    + destruct (String.eqb_spec k k'); [congruence | reflexivity].
    + destruct (String.eqb k0 k'); [reflexivity | exact IH].
Qed.

Lemma keys_set {V} (k : string) (v : V) (m : JS.Map V) (x : string) :
  In x (map fst (JS.set k v m)) <-> x = k \/ In x (map fst m).
Proof.
  induction m as [| [k0 v0] m IH]; cbn.
  - intuition.
  - destruct (String.eqb_spec k0 k) as [-> | Hk]; cbn; intuition.
Qed.

Lemma NoDup_keys_set {V} (k : string) (v : V) (m : JS.Map V) :
  NoDup (map fst m) -> NoDup (map fst (JS.set k v m)).
Proof.
  induction m as [| [k0 v0] m IH]; cbn; intros Hnd.
  - constructor; [intros [] | constructor].
  - inversion Hnd as [| ? ? Hin Hnd']; subst.
    destruct (String.eqb_spec k0 k) as [-> | Hk]; cbn.
    + constructor; assumption.
    + constructor; [| apply IH; exact Hnd'].
      rewrite keys_set. intros [-> | Hin']; [apply Hk; reflexivity | contradiction].
Qed.

Lemma get_In {V} (k : string) (v : V) (m : JS.Map V) :
  JS.get k m = Some v -> In (k, v) m.
Proof.
  induction m as [| [k0 v0] m IH]; cbn; [discriminate |].
  destruct (String.eqb_spec k0 k) as [-> | Hk].
  - intros E. injection E as ->. left. reflexivity.
  - intros E. right. apply IH. exact E.
Qed.

Lemma get_None_keys {V} (k : string) (m : JS.Map V) :
  JS.get k m = None <-> ~ In k (map fst m).
Proof.
  induction m as [| [k0 v0] m IH]; cbn; [intuition |].
  destruct (String.eqb_spec k0 k) as [-> | Hk].
  - split; [discriminate | intros Hn; exfalso; apply Hn; left; reflexivity].
  - rewrite IH. intuition.
Qed.


(** ** The directory tree *)

Lemma lookup_cons (c : string) (rest : Fs.path) (m : Z)
  (es : list (string * Fs.node)) :
  Fs.lookup (c :: rest) (Fs.Dir m es) =
  match JS.get c es with
  | Some child => Fs.lookup rest child
  | None => None
  end.
Proof. reflexivity. Qed.

(** A write puts the file at its path. *)
Lemma writeFileSync_lookup (t : Z) (data : bytes) (p : Fs.path) :
  forall root root',
  Fs.writeFileSync t data p root = Some root' ->
  Fs.lookup p root' = Some (Fs.File t data).
Proof.
  induction p as [| c rest IH]; intros root root' E.
  - destruct root; [injection E as <-; reflexivity | discriminate E].
  - destruct root as [| m es]; [discriminate E |]. cbn [Fs.writeFileSync] in E.
    destruct (JS.get c es) as [child |] eqn:Eg.
    + destruct (Fs.writeFileSync t data rest child) as [child' |] eqn:Ew;
        [| discriminate E].
      injection E as <-. rewrite lookup_cons, get_set_same. eapply IH. exact Ew.
    + destruct rest; [| discriminate E]. injection E as <-.
      rewrite lookup_cons, get_set_same. reflexivity.
Qed.

(** A write leaves every other file as it is. *)
Lemma writeFileSync_frame (t : Z) (data : bytes) (p : Fs.path) :
  forall root root' q m c,
  Fs.writeFileSync t data p root = Some root' ->
  q <> p ->
  Fs.lookup q root = Some (Fs.File m c) ->
  Fs.lookup q root' = Some (Fs.File m c).
Proof.
  induction p as [| x rest IH]; intros root root' q m c E Hne Hq.
  - destruct root; [| discriminate E].
    destruct q; [contradiction | discriminate Hq].
  - destruct root as [| dm es]; [discriminate E |]. cbn [Fs.writeFileSync] in E.
    destruct q as [| y rest']; [discriminate Hq |].
    rewrite lookup_cons in Hq.
    destruct (JS.get x es) as [child |] eqn:Eg.
    + destruct (Fs.writeFileSync t data rest child) as [child' |] eqn:Ew;
        [| discriminate E].
      injection E as <-. rewrite lookup_cons.
      destruct (String.eqb_spec y x) as [-> | Hy].
      * rewrite get_set_same. rewrite Eg in Hq.
        eapply IH; [exact Ew | congruence | exact Hq].
      * rewrite get_set_other by exact Hy. exact Hq.
    + destruct rest; [| discriminate E]. injection E as <-.
      rewrite lookup_cons.
      destruct (String.eqb_spec y x) as [-> | Hy].
      * rewrite Eg in Hq. discriminate Hq.
      * rewrite get_set_other by exact Hy. exact Hq.
Qed.

(** Creating directories leaves every file as it is. *)
Lemma mkdir_p_frame (t : Z) (p : Fs.path) :
  forall root root' q m c,
  Fs.mkdir_p t p root = Some root' ->
  Fs.lookup q root = Some (Fs.File m c) ->
  Fs.lookup q root' = Some (Fs.File m c).
Proof.
  induction p as [| x rest IH]; intros root root' q m c E Hq.
  - destruct root; [discriminate E | injection E as <-; exact Hq].
  - destruct root as [| dm es]; [discriminate E |]. cbn [Fs.mkdir_p] in E.
    destruct q as [| y rest']; [discriminate Hq |].
    rewrite lookup_cons in Hq.
    destruct (JS.get x es) as [child |] eqn:Eg.
    + destruct (Fs.mkdir_p t rest child) as [child' |] eqn:Ew;
        [| discriminate E].
      injection E as <-. rewrite lookup_cons.
      destruct (String.eqb_spec y x) as [-> | Hy].
      * rewrite get_set_same. rewrite Eg in Hq. eapply IH; eassumption.
      * rewrite get_set_other by exact Hy. exact Hq.
    + injection E as <-. rewrite lookup_cons.
      destruct (String.eqb_spec y x) as [-> | Hy].
      * rewrite Eg in Hq. discriminate Hq.
      * rewrite get_set_other by exact Hy. exact Hq.
Qed.

(** ** Steps of the actions *)

Section Steps.
Context {Srv : Type} `{Env Srv}.

Lemma same_local_refl (w : world Srv) : same_local w w.
Proof. repeat split. Qed.

Lemma same_local_trans (w1 w2 w3 : world Srv) :
  same_local w1 w2 -> same_local w2 w3 -> same_local w1 w3.
Proof.
  unfold same_local. intros (-> & -> & -> & ->) (-> & -> & -> & ->).
  repeat split.
Qed.

Lemma getClient_local (w : world Srv) r w' :
  getClient w = (r, w') -> same_local w w'.
Proof.
  unfold getClient. destruct (env_connect (srv w)) as [[] s];
    intros E; injection E as <- <-; repeat split.
Qed.

Lemma call_local {A} (f : Srv -> option A * Srv) (msg : string)
  (w : world Srv) r w' :
  call f msg w = (r, w') -> same_local w w'.
Proof.
  unfold call. destruct (f (srv w)) as [[a |] s];
    intros E; injection E as <- <-; repeat split.
Qed.

Lemma resolveProject_local (project : option string) (w : world Srv) r w' :
  resolveProject project w = (r, w') -> same_local w w'.
Proof.
  unfold resolveProject. intros E. apply bind_inv in E.
  destruct E as [(byId & w1 & E1 & E) | (msg & E1 & ->)];
    apply call_local in E1; [| exact E1].
  apply bind_inv in E.
  destruct E as [(proj & w2 & E2 & E) | (msg & E2 & ->)].
  - assert (H2 : same_local w1 w2).
    { destruct byId; [injection E2 as <- <-; apply same_local_refl |].
      apply call_local in E2. exact E2. }
    destruct proj; injection E as <- <-;
      exact (same_local_trans _ _ _ E1 H2).
  - destruct byId; [discriminate E2 |]. apply call_local in E2.
    exact (same_local_trans _ _ _ E1 E2).
Qed.

(** The project an action settles on, by its stored identity or by name. *)
Lemma settle_local (known : option string * option string)
  (project : option string) (w : world Srv) r w' :
  (if JS.truthy (fst known)
   then ret (match fst known with Some i => i | None => "" end, snd known)
   else resolveProject project) w = (r, w') ->
  same_local w w'.
Proof.
  destruct (JS.truthy (fst known)).
  - intros E. injection E as <- <-. apply same_local_refl.
  - apply resolveProject_local.
Qed.

Lemma downloadProject_run (pid : string) (w : world Srv) r w' :
  downloadProject pid w = (r, w') ->
  exists a, dir w' = dir w /\ meta w' = meta w /\ ticks w' = ticks w /\
    log w' = (log w ++ [EvDownload pid a])%list /\
    r = match a with
        | Some entries => Ok entries
        | None => Throw "Failed to download project"
        end.
Proof.
  unfold downloadProject. destruct (env_downloadProject (srv w) pid) as [a s].
  intros E. exists a. destruct a; injection E as <- <-; repeat split.
Qed.

(** The target directory exists afterwards; an existing one is untouched. *)
Lemma ensureTargetDir_run (w : world Srv) :
  exists w', ensureTargetDir w = (Ok tt, w') /\
    meta w' = meta w /\ log w' = log w /\ srv w' = srv w /\
    match dir w with
    | Some root => w' = w
    | None => dir w' = Some (Fs.Dir (env_clock (ticks w)) []) /\
              ticks w' = S (ticks w)
    end.
Proof.
  unfold ensureTargetDir, ensureDir, bind, existsSync, mkdirSync, bind, now.
  destruct w as [s t [root |] m l]; cbn.
  - eexists. split; [reflexivity |]. repeat split.
  - eexists. split; [reflexivity |]. repeat split.
Qed.

End Steps.

(** ** Writes in the target directory *)

Section Writes.
Context {Srv : Type} `{Env Srv}.

Lemma mkdirSync_spec (p : Fs.path) (w : world Srv) r w' :
  mkdirSync p w = (r, w') ->
  meta w' = meta w /\ log w' = log w /\ srv w' = srv w /\
  ticks w' = S (ticks w) /\
  match dir w with
  | Some root =>
      match Fs.mkdir_p (env_clock (ticks w)) p root with
      | Some root' => r = Ok tt /\ dir w' = Some root'
      | None => (exists msg, r = Throw msg) /\ dir w' = Some root
      end
  | None => r = Ok tt /\ dir w' = Some (Fs.fresh_dirs (env_clock (ticks w)) p)
  end.
Proof.
  unfold mkdirSync, bind, now. destruct w as [s t [root |] m l]; cbn.
  - destruct (Fs.mkdir_p (env_clock t) p root); intros E;
      injection E as <- <-; cbn; repeat split; eauto.
  - intros E. injection E as <- <-. cbn. repeat split.
Qed.

Lemma writeFileSync_spec (p : Fs.path) (data : bytes) (w : world Srv) r w' :
  writeFileSync p data w = (r, w') ->
  meta w' = meta w /\ log w' = log w /\ srv w' = srv w /\
  ticks w' = S (ticks w) /\
  match dir w with
  | Some root =>
      match Fs.writeFileSync (env_clock (ticks w)) data p root with
      | Some root' => r = Ok tt /\ dir w' = Some root'
      | None => (exists msg, r = Throw msg) /\ dir w' = Some root
      end
  | None => (exists msg, r = Throw msg) /\ dir w' = None
  end.
Proof.
  unfold writeFileSync, bind, now. destruct w as [s t [root |] m l]; cbn.
  - destruct (Fs.writeFileSync (env_clock t) data p root); intros E;
      injection E as <- <-; cbn; repeat split; eauto.
  - intros E. injection E as <- <-. cbn. repeat split; eauto.
Qed.

Lemma ensureDir_eq (d : Fs.path) (w : world Srv) :
  ensureDir d w =
  if match dir w with
     | Some root => Fs.existsSync d root
     | None => false
     end
  then (Ok tt, w) else mkdirSync d w.
Proof.
  unfold ensureDir, bind, existsSync.
  destruct (match dir w with
            | Some root => Fs.existsSync d root
            | None => false
            end); reflexivity.
Qed.

Lemma mkdirSync_keeps (p : Fs.path) (w : world Srv) r w' q m c :
  mkdirSync p w = (r, w') -> has_file w q m c -> has_file w' q m c.
Proof.
  intros E (root & Hd & Hq). apply mkdirSync_spec in E.
  destruct E as (_ & _ & _ & _ & E). rewrite Hd in E.
  destruct (Fs.mkdir_p (env_clock (ticks w)) p root) as [root' |] eqn:Em;
    destruct E as [_ E].
  - exists root'. split; [exact E |]. eapply mkdir_p_frame; eassumption.
  - exists root. split; assumption.
Qed.

Lemma ensureDir_keeps (d : Fs.path) (w : world Srv) r w' q m c :
  ensureDir d w = (r, w') -> has_file w q m c -> has_file w' q m c.
Proof.
  rewrite ensureDir_eq.
  destruct (match dir w with
            | Some root => Fs.existsSync d root
            | None => false
            end).
  - intros E. injection E as <- <-. trivial.
  - apply mkdirSync_keeps.
Qed.

Lemma ensureDir_quiet (d : Fs.path) (w : world Srv) r w' :
  ensureDir d w = (r, w') ->
  meta w' = meta w /\ log w' = log w /\ (ticks w <= ticks w')%nat.
Proof.
  rewrite ensureDir_eq.
  destruct (match dir w with
            | Some root => Fs.existsSync d root
            | None => false
            end).
  - intros E. injection E as <- <-. repeat split. apply Nat.le_refl.
  - intros E. apply mkdirSync_spec in E. destruct E as (-> & -> & _ & -> & _).
    repeat split. apply Nat.le_succ_diag_r.
Qed.

Lemma writeFileSync_keeps (p : Fs.path) (data : bytes) (w : world Srv)
  r w' q m c :
  writeFileSync p data w = (r, w') -> q <> p ->
  has_file w q m c -> has_file w' q m c.
Proof.
  intros E Hne (root & Hd & Hq). apply writeFileSync_spec in E.
  destruct E as (_ & _ & _ & _ & E). rewrite Hd in E.
  destruct (Fs.writeFileSync (env_clock (ticks w)) data p root)
    as [root' |] eqn:Em; destruct E as [_ E].
  - exists root'. split; [exact E |]. eapply writeFileSync_frame; eassumption.
  - exists root. split; assumption.
Qed.

Lemma writeFileSync_writes (p : Fs.path) (data : bytes) (w w' : world Srv) :
  writeFileSync p data w = (Ok tt, w') ->
  has_file w' p (env_clock (ticks w)) data.
Proof.
  intros E. apply writeFileSync_spec in E.
  destruct E as (_ & _ & _ & _ & E).
  destruct (dir w) as [root |].
  - destruct (Fs.writeFileSync (env_clock (ticks w)) data p root)
      as [root' |] eqn:Em.
    + destruct E as [_ E]. exists root'. split; [exact E |].
      eapply writeFileSync_lookup. exact Em.
    + destruct E as [[msg E] _]. discriminate E.
  - destruct E as [[msg E] _]. discriminate E.
Qed.

(** The body of the extraction loop: a path that is locally newer is
    skipped, any other is written after its directory is made. *)
Lemma pull_entry_eq (force : bool) (lp : option Z) (e : ZipEntry)
  (c : pull_counts) (w : world Srv) :
  isDirectory e = false ->
  pull_entry force lp e c w =
  if locally_newer force lp (dir w) (Fs.join (entryName e))
  then (Ok {| fileCount := fileCount c;
              skippedCount := S (skippedCount c);
              skippedFiles := (skippedFiles c ++ [entryName e])%list |}, w)
  else (ensureDir (Fs.dirname (Fs.join (entryName e))) ;;;
        writeFileSync (Fs.join (entryName e)) (getData e) ;;;
        ret {| fileCount := S (fileCount c);
               skippedCount := skippedCount c;
               skippedFiles := skippedFiles c |}) w.
Proof.
  intros Hd. unfold pull_entry, locally_newer. rewrite Hd.
  unfold bind, existsSync, try, statSync_mtime, ret, Fs.existsSync.
  destruct lp as [t |]; [| destruct (dir w); reflexivity].
  destruct (dir w) as [root |] eqn:Edir;
    [| rewrite andb_false_r; reflexivity].
  destruct (Fs.lookup (Fs.join (entryName e)) root) as [n |] eqn:El;
    [| rewrite andb_false_r; reflexivity].
  destruct force; cbn [negb andb]; [reflexivity |].
  rewrite Edir, El. destruct (t <? Fs.mtime_of n); reflexivity.
Qed.

End Writes.

(** ** pull *)

Section Pull.
Context {Srv : Type} `{Env Srv}.

(** How a [pull] goes: it fails before anything is written, or it downloads
    the archive, makes sure of the directory, runs the loop and, when the
    loop ends well, writes the state file with the time of its end. *)
Lemma pull_files_inv known project force (w : world Srv) r w' :
  pull_files known project force w = (r, w') ->
  ((exists msg, r = Throw msg) /\ dir w' = dir w /\ meta w' = meta w /\
   ticks w' = ticks w /\
   (log w' = log w \/ exists pid, log w' = (log w ++ [EvDownload pid None])%list))
  \/
  exists pid entries w1 w2 rl wl,
    dir w1 = dir w /\ meta w1 = meta w /\ ticks w1 = ticks w /\
    log w1 = (log w ++ [EvDownload pid (Some entries)])%list /\
    ensureTargetDir w1 = (Ok tt, w2) /\
    pull_loop force (lastPullOf (meta w)) entries pull_start w2 = (rl, wl) /\
    match rl with
    | Ok c =>
        r = Ok c /\ dir w' = dir wl /\ log w' = log wl /\
        ticks w' = S (ticks wl) /\
        exists pn, meta w' =
          Some {| projectId := Some pid; projectName := pn;
                  lastPull := Some (env_clock (ticks wl));
                  lastPush := None; lastSync := None |}
    | Throw msg => r = Throw msg /\ w' = wl
    end.
Proof.
  unfold pull_files. intros E.
  apply bind_inv in E. destruct E as [(u & wa & Ea & E) | (msg & Ea & ->)];
    apply getClient_local in Ea; destruct Ea as (Hd1 & Hm1 & Hl1 & Ht1).
  2:{ left. split; [eauto |]. repeat split; try assumption. left. assumption. }
  apply bind_inv in E. destruct E as [(proj & wb & Eb & E) | (msg & Eb & ->)];
    apply settle_local in Eb; destruct Eb as (Hd2 & Hm2 & Hl2 & Ht2).
  2:{ left. split; [eauto |]. repeat split; try congruence. left. congruence. }
  apply bind_inv in E. destruct E as [(entries & w1 & Ec & E) | (msg & Ec & ->)];
    apply downloadProject_run in Ec;
    destruct Ec as (a & Hd3 & Hm3 & Ht3 & Hl3 & Ha).
  2:{ left. split; [eauto |]. repeat split; try congruence.
      destruct a; [discriminate Ha |]. right. exists (fst proj). congruence. }
  destruct a as [entries' |]; [| discriminate Ha]. injection Ha as <-.
  right. exists (fst proj), entries, w1.
  destruct (ensureTargetDir_run w1) as (w2 & Ee & Hm4 & Hl4 & _).
  rewrite (bind_ok _ _ _ _ _ Ee) in E.
  unfold bind at 1 in E. unfold readMeta at 1 in E.
  destruct (pull_loop force (lastPullOf (meta w2)) entries pull_start w2)
    as [rl wl] eqn:Eloop.
  exists w2, rl, wl.
  assert (Hmeta : meta w2 = meta w) by congruence.
  unfold bind at 1 in E. rewrite Eloop in E. rewrite Hmeta in Eloop.
  split; [congruence |]. split; [congruence |]. split; [congruence |].
  split; [congruence |]. split; [exact Ee |]. split; [exact Eloop |].
  destruct rl as [c | msg].
  - unfold bind, now, writeMeta, ret in E. cbn in E. injection E as <- <-.
    cbn. repeat split. eexists. reflexivity.
  - injection E as <- <-. split; reflexivity.
Qed.



Lemma pull_entry_quiet force lp e c0 (w : world Srv) r w' :
  pull_entry force lp e c0 w = (r, w') ->
  meta w' = meta w /\ log w' = log w /\ (ticks w <= ticks w')%nat.
Proof.
  destruct (isDirectory e) eqn:Hd.
  - unfold pull_entry. rewrite Hd. intros E. injection E as <- <-.
    repeat split. apply Nat.le_refl.
  - rewrite pull_entry_eq by exact Hd.
    destruct (locally_newer force lp (dir w) (Fs.join (entryName e))).
    + intros E. injection E as <- <-. repeat split. apply Nat.le_refl.
    + intros E. apply bind_inv in E.
      destruct E as [(u & w1 & E1 & E) | (msg & E1 & ->)];
        apply ensureDir_quiet in E1; destruct E1 as (Hm1 & Hl1 & Ht1);
        [| repeat split; assumption].
      apply bind_inv in E.
      destruct E as [(u2 & w2 & E2 & E) | (msg & E2 & ->)];
        apply writeFileSync_spec in E2;
        destruct E2 as (Hm2 & Hl2 & _ & Ht2 & _).
      * injection E as <- <-. repeat split; try congruence. lia.
      * repeat split; try congruence. lia.
Qed.

Lemma pull_loop_quiet force lp entries :
  forall c0 (w : world Srv) r w',
  pull_loop force lp entries c0 w = (r, w') ->
  meta w' = meta w /\ log w' = log w /\ (ticks w <= ticks w')%nat.
Proof.
  induction entries as [| e rest IH]; intros c0 w r w' E.
  - injection E as <- <-. repeat split. apply Nat.le_refl.
  - cbn [pull_loop] in E. apply bind_inv in E.
    destruct E as [(c1 & w1 & E1 & E) | (msg & E1 & ->)];
      apply pull_entry_quiet in E1; destruct E1 as (Hm1 & Hl1 & Ht1);
      [| repeat split; assumption].
    apply IH in E. destruct E as (Hm2 & Hl2 & Ht2).
    repeat split; try congruence. lia.
Qed.




Lemma has_file_dir (w w' : world Srv) q m c :
  dir w' = dir w -> has_file w q m c -> has_file w' q m c.
Proof. intros E (root & Hd & Hq). exists root. split; congruence. Qed.


End Pull.


(** ** Paths *)

Lemma split_nonempty (sep : ascii) (s : string) : JS.split sep s <> [].
Proof.
  destruct s as [| c s']; cbn; [discriminate |].
  destruct (Ascii.eqb c sep); [discriminate |].
  destruct (JS.split sep s'); discriminate.
Qed.

Lemma unsplit_split (sep : ascii) (s : string) :
  unsplit sep (JS.split sep s) = s.
Proof.
  induction s as [| c s' IH]; [reflexivity |]. cbn [JS.split].
  pose proof (split_nonempty sep s') as Hne.
  destruct (Ascii.eqb_spec c sep) as [-> | Hc].
  - destruct (JS.split sep s') as [| h t]; [contradiction |].
    change (unsplit sep ("" :: h :: t)) with (String sep (unsplit sep (h :: t))).
    rewrite IH. reflexivity.
  - destruct (JS.split sep s') as [| h t]; [contradiction |].
    destruct t as [| h' t'].
    + cbn in *. rewrite IH. reflexivity.
    + change (unsplit sep (String c h :: h' :: t'))
        with (String c (h ++ String sep (unsplit sep (h' :: t')))).
      change (unsplit sep (h :: h' :: t'))
        with (h ++ String sep (unsplit sep (h' :: t'))) in IH.
      rewrite IH. reflexivity.
Qed.

(** Two names with the same path are the same name. *)
Lemma join_inj (a b : string) : Fs.join a = Fs.join b -> a = b.
Proof.
  unfold Fs.join. intros E.
  rewrite <- (unsplit_split "/" a), <- (unsplit_split "/" b), E. reflexivity.
Qed.

(** ** sync *)

Section Sync.
Context {Srv : Type} `{Env Srv}.

(** One remote file: nothing but the file at its path can change, and that
    one only when the local file does not win; the lists grow by what the
    comparison says. *)
Lemma sync_remote_run LF lp path rc l (w : world Srv) r w' :
  sync_remote LF lp (path, rc) l w = (r, w') ->
  meta w' = meta w /\ log w' = log w /\
  (forall q m c, q <> Fs.join path \/ localWins LF lp path <> None ->
                 has_file w q m c -> has_file w' q m c) /\
  forall l', r = Ok l' ->
    filesToUpload l' = (filesToUpload l ++ kept_of LF lp [(path, rc)])%list /\
    filesUpdatedLocally l' =
      (filesUpdatedLocally l ++ updated_of LF lp [(path, rc)])%list /\
    filesKeptLocal l' =
      (filesKeptLocal l ++ map fst (kept_of LF lp [(path, rc)]))%list /\
    filesNewLocal l' = filesNewLocal l /\
    (localWins LF lp path = None -> exists t, has_file w' (Fs.join path) t rc).
Proof.
  unfold sync_remote, kept_of, updated_of. cbn [flat_map fst snd].
  intros E. apply bind_inv in E.
  destruct E as [(u & w1 & E1 & E) | (msg & E1 & ->)].
  2:{ pose proof (ensureDir_quiet _ _ _ _ E1) as (Hm & Hl & _).
      split; [exact Hm |]. split; [exact Hl |].
      split; [| discriminate].
      intros q m c _ Hf. eapply ensureDir_keeps; eassumption. }
  pose proof (ensureDir_quiet _ _ _ _ E1) as (Hm1 & Hl1 & _).
  destruct (localWins LF lp path) as [localFile |] eqn:Ew.
  - assert (E' : r = Ok (if bytes_eq_dec (lf_content localFile) rc then l
                         else {| filesToUpload :=
                                   (filesToUpload l ++ [(path, lf_content localFile)])%list;
                                 filesUpdatedLocally := filesUpdatedLocally l;
                                 filesKeptLocal := (filesKeptLocal l ++ [path])%list;
                                 filesNewLocal := filesNewLocal l |})
                 /\ w' = w1).
    { destruct (bytes_eq_dec (lf_content localFile) rc);
        injection E as <- <-; split; reflexivity. }
    destruct E' as [-> ->]. clear E.
    split; [exact Hm1 |]. split; [exact Hl1 |]. split.
    + intros q m c _ Hf. eapply ensureDir_keeps; eassumption.
    + intros l' E. injection E as <-.
      destruct (bytes_eq_dec (lf_content localFile) rc); cbn;
        rewrite ?app_nil_r; repeat split; discriminate.
  - apply bind_inv in E.
    destruct E as [(u2 & w2 & E2 & E) | (msg & E2 & ->)];
      pose proof (writeFileSync_spec _ _ _ _ _ E2) as (Hm2 & Hl2 & _).
    + injection E as <- <-.
      split; [congruence |]. split; [congruence |]. split.
      * intros q m c [Hq | Hq]; [| contradiction]. intros Hf.
        eapply writeFileSync_keeps; [exact E2 | exact Hq |].
        eapply ensureDir_keeps; eassumption.
      * intros l' E. injection E as <-. cbn. rewrite ?app_nil_r.
        repeat split. intros _. destruct u2.
        eexists. eapply writeFileSync_writes. exact E2.
    + split; [congruence |]. split; [congruence |]. split; [| discriminate].
      intros q m c [Hq | Hq]; [| contradiction]. intros Hf.
      eapply writeFileSync_keeps; [exact E2 | exact Hq |].
      eapply ensureDir_keeps; eassumption.
Qed.

(** The merge loop over the remote files. *)
Lemma sync_merge_run LF lp (R : JS.Map bytes) :
  forall l (w : world Srv) r w',
  sync_merge LF lp R l w = (r, w') ->
  meta w' = meta w /\ log w' = log w /\
  (forall q m c,
     (forall path rc, In (path, rc) R -> Fs.join path = q ->
                      localWins LF lp path <> None) ->
     has_file w q m c -> has_file w' q m c) /\
  forall l', r = Ok l' ->
    filesToUpload l' = (filesToUpload l ++ kept_of LF lp R)%list /\
    filesUpdatedLocally l' = (filesUpdatedLocally l ++ updated_of LF lp R)%list /\
    filesKeptLocal l' = (filesKeptLocal l ++ map fst (kept_of LF lp R))%list /\
    filesNewLocal l' = filesNewLocal l /\
    (NoDup (map fst R) ->
     forall p rc, In (p, rc) R -> localWins LF lp p = None ->
                  exists t, has_file w' (Fs.join p) t rc).
Proof.
  induction R as [| [path rc] R IH]; intros l w r w' E.
  - injection E as <- <-. split; [reflexivity |]. split; [reflexivity |].
    split; [trivial |]. intros l' E. injection E as <-. cbn.
    rewrite !app_nil_r. repeat split. intros _ p rc' [].
  - cbn [sync_merge] in E. apply bind_inv in E.
    destruct E as [(l1 & w1 & E1 & E) | (msg & E1 & ->)];
      apply sync_remote_run in E1; destruct E1 as (Hm1 & Hl1 & Hk1 & Hr1).
    2:{ split; [exact Hm1 |]. split; [exact Hl1 |]. split; [| discriminate].
        intros q m c Hq Hf. apply Hk1; [| exact Hf].
        destruct (list_eq_dec string_dec q (Fs.join path)) as [-> | Hne];
          [right; eapply Hq; [left |]; reflexivity | left; exact Hne]. }
    apply IH in E. destruct E as (Hm2 & Hl2 & Hk2 & Hr2).
    split; [congruence |]. split; [congruence |]. split.
    + intros q m c Hq Hf. apply Hk2.
      * intros path' rc' Hin. apply (Hq path' rc'). right. exact Hin.
      * apply Hk1; [| exact Hf].
        destruct (list_eq_dec string_dec q (Fs.join path)) as [-> | Hne];
          [right; eapply Hq; [left |]; reflexivity | left; exact Hne].
    + intros l' ->.
      destruct (Hr1 l1 eq_refl) as (Ha1 & Hb1 & Hc1 & Hd1 & He1).
      destruct (Hr2 l' eq_refl) as (Ha2 & Hb2 & Hc2 & Hd2 & He2).
      unfold kept_of, updated_of in *. cbn [flat_map] in *.
      rewrite app_nil_r in Ha1, Hb1, Hc1.
      split; [rewrite Ha2, Ha1, <- app_assoc; reflexivity |].
      split; [rewrite Hb2, Hb1, <- app_assoc; reflexivity |].
      split; [rewrite Hc2, Hc1, map_app, <- app_assoc; reflexivity |].
      split; [congruence |].
      intros Hnd p rc' Hin Hw. cbn [map fst] in Hnd.
      inversion Hnd as [| ? ? Hni Hnd']; subst.
      destruct Hin as [Heq | Hin].
      * injection Heq as -> ->. destruct (He1 Hw) as [t Hf]. exists t.
        apply Hk2; [| exact Hf].
        intros path' rc'' Hin' Hj. apply join_inj in Hj. subst path'.
        exfalso. apply Hni. change p with (fst (p, rc'')).
        apply in_map. exact Hin'.
      * apply He2; assumption.
Qed.

Lemma sync_new_local_lists (R : JS.Map bytes) (LF : JS.Map local_file) :
  forall l,
  filesToUpload (sync_new_local R LF l) = (filesToUpload l ++ new_of R LF)%list /\
  filesNewLocal (sync_new_local R LF l) =
    (filesNewLocal l ++ map fst (new_of R LF))%list /\
  filesUpdatedLocally (sync_new_local R LF l) = filesUpdatedLocally l /\
  filesKeptLocal (sync_new_local R LF l) = filesKeptLocal l.
Proof.
  induction LF as [| [path lf] LF IH]; intros l; cbn [sync_new_local].
  - cbn. rewrite !app_nil_r. repeat split.
  - destruct (IH (if JS.has path R then l
                  else {| filesToUpload := (filesToUpload l ++ [(path, lf_content lf)])%list;
                          filesUpdatedLocally := filesUpdatedLocally l;
                          filesKeptLocal := filesKeptLocal l;
                          filesNewLocal := (filesNewLocal l ++ [path])%list |}))
      as (Ha & Hb & Hc & Hd).
    rewrite Ha, Hb, Hc, Hd. unfold new_of. cbn [flat_map fst snd].
    destruct (JS.has path R); cbn; rewrite <- ?app_assoc; repeat split.
Qed.

(** An upload touches neither the directory nor the state file, and asks
    the service for no archive. *)
Lemma uploadFile_local pid folderId fileName content (w : world Srv) r w' :
  uploadFile pid folderId fileName content w = (r, w') ->
  dir w' = dir w /\ meta w' = meta w /\
  exists evs, log w' = (log w ++ evs)%list /\ Forall no_download evs.
Proof.
  intros E. unfold uploadFile in E.
  destruct (targetFolderOf pid folderId w) as [rt w0] eqn:Et.
  destruct (targetFolderOf_quiet _ _ _ _ _ Et)
    as ((target & ->) & Hl0 & Hd0 & Hm0 & _).
  rewrite (bind_ok _ _ _ _ _ Et) in E.
  destruct (tryUpload_run pid (baseNameOf fileName)
              (mimeTypeOf (baseNameOf fileName)) content target w0)
    as (rep1 & w1 & Et1 & Hl1 & Hd1 & Hm1 & _).
  assert (Hone : dir w1 = dir w /\ meta w1 = meta w /\
                 exists evs, log w1 = (log w ++ evs)%list /\ Forall no_download evs).
  { split; [congruence |]. split; [congruence |].
    eexists. split; [rewrite Hl1, Hl0; reflexivity |].
    constructor; [exact I | constructor]. }
  destruct (upload_outcome rep1) as [res1 | msg1] eqn:Eo1.
  2:{ rewrite (bind_throw _ _ _ _ _ Et1) in E. injection E as <- <-. exact Hone. }
  rewrite (bind_ok _ _ _ _ _ Et1) in E.
  destruct (folder_not_found res1).
  2:{ cbn in E. injection E as <- <-. exact Hone. }
  destruct (probeRootFolderId pid w1) as [rp wp] eqn:Ep.
  pose proof (probe_loop_trace _ _ _ _ _ Ep) as (Hdp & Hmp & evs0 & _ & Hrp).
  destruct rp as [probed | msg]; [| contradiction]. clear evs0 Hrp.
  pose proof (probe_loop_events _ _ _ _ _ Ep) as (evs & Hlp & Hev).
  assert (Hev' : Forall no_download evs).
  { eapply Forall_impl; [| exact Hev].
    intros e [(f & t & rp & ->) | (en & ->)]; exact I. }
  destruct Hone as (_ & _ & evs1 & Hl1' & Hev1).
  assert (Htwo : dir wp = dir w /\ meta wp = meta w /\
                 exists evs, log wp = (log w ++ evs)%list /\ Forall no_download evs).
  { split; [congruence |]. split; [congruence |].
    exists (evs1 ++ evs)%list.
    split; [rewrite Hlp, Hl1', app_assoc; reflexivity |].
    apply Forall_app. split; assumption. }
  unfold bind at 1 in E. unfold bind at 1 in E. rewrite Ep in E.
  assert (Hstay : forall x, (x, wp) = (r, w') ->
            dir w' = dir w /\ meta w' = meta w /\
            exists evs, log w' = (log w ++ evs)%list /\ Forall no_download evs).
  { intros x Ex. injection Ex as _ <-. exact Htwo. }
  destruct probed as [h |].
  - destruct (JS.truthy (Some h) && negb (String.eqb h target))%bool.
    + destruct (tryUpload_run pid (baseNameOf fileName)
                  (mimeTypeOf (baseNameOf fileName)) content h wp)
        as (rep2 & w2 & Et2 & Hl2 & Hd2 & Hm2 & _).
      rewrite Et2 in E.
      assert (w' = w2) by (destruct (upload_outcome rep2); injection E as _ <-;
                           reflexivity).
      subst w'. destruct Htwo as (Hdw & Hmw & evs2 & Hl2' & Hev2).
      split; [congruence |]. split; [congruence |].
      exists (evs2 ++ [EvUpload pid h
                         (payload_form h (baseNameOf fileName)
                            (mimeTypeOf (baseNameOf fileName)) content) rep2])%list.
      split; [rewrite Hl2, Hl2', app_assoc; reflexivity |].
      apply Forall_app. split; [exact Hev2 |].
      constructor; [exact I | constructor].
    + cbn in E. eapply Hstay. exact E.
  - cbn in E. eapply Hstay. exact E.
Qed.

Lemma sync_upload_local pid (files : list (string * bytes)) :
  forall (w : world Srv) r w',
  sync_upload pid files w = (r, w') ->
  dir w' = dir w /\ meta w' = meta w /\
  exists evs, log w' = (log w ++ evs)%list /\ Forall no_download evs.
Proof.
  induction files as [| [path content] rest IH]; intros w r w' E.
  - injection E as <- <-. split; [reflexivity |]. split; [reflexivity |].
    exists []. split; [symmetry; apply app_nil_r | constructor].
  - cbn [sync_upload] in E. apply bind_inv in E.
    destruct E as [(u & w1 & E1 & E) | (msg & E1 & ->)];
      apply uploadFile_local in E1;
      destruct E1 as (Hd1 & Hm1 & evs1 & Hl1 & He1).
    + apply IH in E. destruct E as (Hd2 & Hm2 & evs2 & Hl2 & He2).
      split; [congruence |]. split; [congruence |].
      exists (evs1 ++ evs2)%list.
      split; [rewrite Hl2, Hl1, app_assoc; reflexivity |].
      apply Forall_app. split; assumption.
    + split; [exact Hd1 |]. split; [exact Hm1 |]. exists evs1.
      split; assumption.
Qed.

(** How the comparison of a [sync] goes: the download fails and nothing has
    changed, or the archive is there and the loops run over the snapshot of
    the directory taken before any write. *)
Lemma sync_compare_inv pid (w : world Srv) r w' :
  sync_compare pid w = (r, w') ->
  ((exists msg, r = Throw msg) /\ dir w' = dir w /\ meta w' = meta w /\
   ticks w' = ticks w /\ log w' = (log w ++ [EvDownload pid None])%list)
  \/
  exists entries w1 w2,
    dir w1 = dir w /\ meta w1 = meta w /\ ticks w1 = ticks w /\
    log w1 = (log w ++ [EvDownload pid (Some entries)])%list /\
    ensureTargetDir w1 = (Ok tt, w2) /\
    match local_snapshot (meta w) (dir w2) with
    | None => (exists msg, r = Throw msg) /\ w' = w2
    | Some localFiles =>
        exists rl,
          sync_merge localFiles (lastPullOf (meta w)) (remoteFilesOf entries)
            no_lists w2 = (rl, w') /\
          r = match rl with
              | Ok l => Ok (sync_new_local (remoteFilesOf entries) localFiles l)
              | Throw msg => Throw msg
              end
    end.
Proof.
  unfold sync_compare. intros E. apply bind_inv in E.
  destruct E as [(entries & w1 & Ec & E) | (msg & Ec & ->)];
    apply downloadProject_run in Ec;
    destruct Ec as (a & Hd1 & Hm1 & Ht1 & Hl1 & Ha).
  2:{ left. destruct a; [discriminate Ha |]. split; [eauto |].
      repeat split; assumption. }
  destruct a as [entries' |]; [| discriminate Ha]. injection Ha as <-.
  right. exists entries, w1.
  destruct (ensureTargetDir_run w1) as (w2 & Ee & Hm2 & _).
  rewrite (bind_ok _ _ _ _ _ Ee) in E. exists w2.
  split; [exact Hd1 |]. split; [exact Hm1 |]. split; [exact Ht1 |].
  split; [exact Hl1 |]. split; [exact Ee |].
  assert (Hmeta : meta w2 = meta w) by congruence.
  unfold bind at 1 in E. unfold readMeta at 1 in E. rewrite Hmeta in E.
  unfold local_snapshot.
  destruct (meta w) as [m |] eqn:Em.
  - unfold bind at 1 in E. unfold bind at 1 in E.
    unfold readdirSync_root in E.
    destruct (dir w2) as [[| dm es] |]; cbn in E.
    + injection E as <- <-. split; [eauto | reflexivity].
    + rewrite Hmeta in E. unfold bind at 1 in E.
      destruct (sync_merge (scanLocalFiles "" es []) (lastPullOf (Some m))
                  (remoteFilesOf entries) no_lists w2) as [rl wl] eqn:El.
      exists rl. destruct rl; injection E as <- <-; split; reflexivity.
    + injection E as <- <-. split; [eauto | reflexivity].
  - unfold bind at 1 in E. cbn [ret] in E.
    unfold bind at 1 in E. unfold readMeta at 1 in E. rewrite Hmeta in E.
    unfold bind at 1 in E.
    destruct (sync_merge [] (lastPullOf None) (remoteFilesOf entries)
                no_lists w2) as [rl wl] eqn:El.
    exists rl. destruct rl; injection E as <- <-; split; reflexivity.
Qed.

(** How a [sync] goes: it fails before the comparison, or the comparison
    fails, or an upload fails, or it ends with the state file written. *)
Lemma sync_action_inv project (w : world Srv) r w' :
  sync_action project w = (r, w') ->
  ((exists msg, r = Throw msg) /\ same_local w w')
  \/
  exists pid w0 rc wc,
    same_local w w0 /\ sync_compare pid w0 = (rc, wc) /\
    match rc with
    | Throw msg => r = Throw msg /\ w' = wc
    | Ok l =>
        exists ru wu,
          sync_upload pid (filesToUpload l) wc = (ru, wu) /\
          match ru with
          | Throw msg => r = Throw msg /\ w' = wu
          | Ok _ =>
              r = Ok l /\ dir w' = dir wu /\ log w' = log wu /\
              exists pn, meta w' =
                Some {| projectId := Some pid; projectName := pn;
                        lastPull := Some (env_clock (ticks wu));
                        lastPush := None;
                        lastSync := Some (env_clock (S (ticks wu))) |}
          end
    end.
Proof.
  unfold sync_action. intros E.
  unfold bind at 1 in E. unfold readMeta at 1 in E.
  match type of E with
  | (if ?c then _ else _) _ = _ => destruct c
  end.
  { injection E as <- <-. left. split; [eauto | apply same_local_refl]. }
  apply bind_inv in E. destruct E as [(u & wa & Ea & E) | (msg & Ea & ->)];
    apply getClient_local in Ea.
  2:{ left. split; [eauto | exact Ea]. }
  apply bind_inv in E. destruct E as [(proj & wb & Eb & E) | (msg & Eb & ->)];
    apply settle_local in Eb;
    pose proof (same_local_trans _ _ _ Ea Eb) as Hab.
  2:{ left. split; [eauto | exact Hab]. }
  right. exists (fst proj), wb.
  destruct (sync_compare (fst proj) wb) as [rc wc] eqn:Ec.
  exists rc, wc. split; [exact Hab |]. split; [reflexivity |].
  unfold bind at 1 in E. rewrite Ec in E.
  destruct rc as [l | msg]; [| injection E as <- <-; split; reflexivity].
  destruct (sync_upload (fst proj) (filesToUpload l) wc) as [ru wu] eqn:Eu.
  exists ru, wu. split; [reflexivity |].
  unfold bind at 1 in E. rewrite Eu in E.
  destruct ru as [u' | msg]; [| injection E as <- <-; split; reflexivity].
  unfold bind, now, writeMeta, ret in E. cbn in E. injection E as <- <-.
  cbn. repeat split. eexists. reflexivity.
Qed.

End Sync.

(** ** A failed download *)

Section Download.
Context {Srv : Type} `{Env Srv}.

Lemma delta_nil {A} (l evs : list A) : l = (l ++ evs)%list -> evs = [].
Proof.
  intros E. rewrite <- (app_nil_r l) in E at 1.
  apply app_inv_head in E. symmetry. exact E.
Qed.

(** C8. When the download of the archive fails, the [pull] or [sync] call
    fails, the directory and the state file are exactly as before the call,
    and the failed download is the only request the call has made. *)
Theorem download_failure_is_fatal :
  (forall project force (w : world Srv) r w' evs pid,
     pull_action project force w = (r, w') ->
     log w' = (log w ++ evs)%list ->
     In (EvDownload pid None) evs ->
     (exists msg, r = Throw msg) /\ dir w' = dir w /\ meta w' = meta w /\
     evs = [EvDownload pid None]) /\
  (forall project (w : world Srv) r w' evs pid,
     sync_action project w = (r, w') ->
     log w' = (log w ++ evs)%list ->
     In (EvDownload pid None) evs ->
     (exists msg, r = Throw msg) /\ dir w' = dir w /\ meta w' = meta w /\
     evs = [EvDownload pid None]).
Proof.
  split.
  - intros project force w r w' evs pid E Hlog Hin.
    assert (E' : (r = Throw "No project specified." /\ w' = w) \/
                 exists known, pull_files known project force w = (r, w')).
    { unfold pull_action, bind, readMeta in E.
      destruct (JS.truthy project); [right; eexists; exact E |].
      destruct (meta w); [right; eexists; exact E |].
      left. injection E as <- <-. split; reflexivity. }
    destruct E' as [[-> ->] | [known E']].
    { apply delta_nil in Hlog. subst evs. destruct Hin. }
    apply pull_files_inv in E'.
    destruct E' as [(Hr & Hd & Hm & _ & [Hl | [pid' Hl]]) | E'].
    + rewrite Hl in Hlog. apply delta_nil in Hlog. subst evs. destruct Hin.
    + rewrite Hl in Hlog. apply app_inv_head in Hlog. subst evs.
      destruct Hin as [Hin | []]. injection Hin as ->.
      repeat split; assumption.
    + destruct E' as (pid' & entries & w1 & w2 & rl & wl & _ & _ & _ & Hl1
                      & Ee & Eloop & Hend).
      destruct (ensureTargetDir_run w1) as (w2' & Ee' & _ & Hl2 & _).
      rewrite Ee in Ee'. injection Ee' as <-.
      apply pull_loop_quiet in Eloop. destruct Eloop as (_ & Hll & _).
      assert (Hl' : log w' = log wl).
      { destruct rl; [destruct Hend as (_ & _ & Hl' & _); exact Hl' |].
        destruct Hend as [_ ->]. reflexivity. }
      rewrite Hl', Hll, Hl2, Hl1 in Hlog. apply app_inv_head in Hlog.
      subst evs. destruct Hin as [Hin | []]. discriminate Hin.
  - intros project w r w' evs pid E Hlog Hin.
    apply sync_action_inv in E.
    destruct E as [(Hr & _ & _ & Hl & _) | E].
    { rewrite Hl in Hlog. apply delta_nil in Hlog. subst evs. destruct Hin. }
    destruct E as (pid' & w0 & rc & wc & (Hd0 & Hm0 & Hl0 & _) & Ec & Hend).
    apply sync_compare_inv in Ec.
    destruct Ec as [((msg & ->) & Hd & Hm & _ & Hl) | Ec].
    + destruct Hend as [-> ->].
      rewrite Hl, Hl0 in Hlog. apply app_inv_head in Hlog. subst evs.
      destruct Hin as [Hin | []]. injection Hin as ->.
      split; [eauto |]. split; [congruence |]. split; [congruence | reflexivity].
    + exfalso.
      destruct Ec as (entries & w1 & w2 & _ & _ & _ & Hl1 & Ee & Hsnap).
      destruct (ensureTargetDir_run w1) as (w2' & Ee' & _ & Hl2 & _).
      rewrite Ee in Ee'. injection Ee' as <-.
      assert (Hrest : exists rest, log w' =
                        (log w ++ EvDownload pid' (Some entries) :: rest)%list /\
                        Forall no_download rest).
      { destruct (local_snapshot (meta w0) (dir w2)) as [LF |].
        - destruct Hsnap as (rl & Em & ->).
          apply sync_merge_run in Em. destruct Em as (_ & Hlm & _).
          destruct rl as [l | msg].
          + destruct Hend as (ru & wu & Eu & Hend).
            apply sync_upload_local in Eu.
            destruct Eu as (_ & _ & evu & Hlu & Hev).
            exists evu. split; [| exact Hev].
            assert (Hl' : log w' = log wu).
            { destruct ru; [destruct Hend as (_ & _ & Hl' & _); exact Hl' |].
              destruct Hend as [_ ->]. reflexivity. }
            rewrite Hl', Hlu, Hlm, Hl2, Hl1, Hl0, <- app_assoc. reflexivity.
          + destruct Hend as [_ ->]. exists []. split; [| constructor].
            rewrite Hlm, Hl2, Hl1, Hl0. reflexivity.
        - destruct Hsnap as [(msg & ->) ->]. destruct Hend as [_ ->].
          exists []. split; [| constructor]. rewrite Hl2, Hl1, Hl0. reflexivity. }
      destruct Hrest as (rest & Hl' & Hnd).
      rewrite Hl' in Hlog. apply app_inv_head in Hlog. subst evs.
      destruct Hin as [Hin | Hin]; [discriminate Hin |].
      rewrite Forall_forall in Hnd. exact (Hnd _ Hin).
Qed.

End Download.

Lemma download_failure_is_fatal_witness :
  (exists msg, fst (pull_action (Some "paper") false
                      (Demo.start Demo.offline None None)) = Throw msg) /\
  dir (snd (pull_action (Some "paper") false
              (Demo.start Demo.offline None None))) = None.
Proof.
  assert (Hlog : log (snd (pull_action (Some "paper") false
                             (Demo.start Demo.offline None None))) =
                 (log (Demo.start Demo.offline None None)
                  ++ [EvDownload "paper" None])%list)
    by (vm_compute; reflexivity).
  destruct (proj1 download_failure_is_fatal (Some "paper") false
              (Demo.start Demo.offline None None) _ _
              [EvDownload "paper" None] "paper"
              (surjective_pairing _) Hlog (or_introl eq_refl))
    as (Hr & Hd & _).
  split; [exact Hr | exact Hd].
Defined.

(** ** The lists of a sync *)




Lemma kept_keys LF lp (R : JS.Map bytes) (x : string) :
  In x (map fst (kept_of LF lp R)) ->
  In x (map fst R) /\ localWins LF lp x <> None.
Proof.
  induction R as [| [path rc] R IH]; [intros [] |].
  unfold kept_of in *. cbn [flat_map fst snd map]. rewrite map_app, in_app_iff.
  intros [Hin | Hin].
  - destruct (localWins LF lp path) as [lf |] eqn:Ew; [| destruct Hin].
    destruct (bytes_eq_dec (lf_content lf) rc); [destruct Hin |].
    cbn in Hin. destruct Hin as [<- | []].
    split; [left; reflexivity | congruence].
  - destruct (IH Hin) as [H1 H2]. split; [right; exact H1 | exact H2].
Qed.


Lemma new_keys (R : JS.Map bytes) (LF : JS.Map local_file) (x : string) :
  In x (map fst (new_of R LF)) ->
  JS.has x R = false /\ In x (map fst LF).
Proof.
  induction LF as [| [path lf] LF IH]; [intros [] |].
  unfold new_of in *. cbn [flat_map fst snd map]. rewrite map_app, in_app_iff.
  intros [Hin | Hin].
  - destruct (JS.has path R) eqn:Eh; [destruct Hin |].
    cbn in Hin. destruct Hin as [<- | []].
    split; [exact Eh | left; reflexivity].
  - destruct (IH Hin) as [H1 H2]. split; [exact H1 | right; exact H2].
Qed.

Lemma count_occ_absent (l : list string) (x : string) :
  ~ In x l -> count_occ string_dec l x = 0%nat.
Proof. apply count_occ_not_In. Qed.


(** A local file the remote has not is queued once, with its bytes. *)
Lemma new_count (R : JS.Map bytes) (LF : JS.Map local_file) p L :
  NoDup (map fst LF) -> In (p, L) LF -> JS.has p R = false ->
  count_occ string_dec (map fst (new_of R LF)) p = 1%nat /\
  In (p, lf_content L) (new_of R LF).
Proof.
  intros Hnd Hin Hh. induction LF as [| [path lf] LF IH]; [destruct Hin |].
  cbn [map fst] in Hnd. inversion Hnd as [| ? ? Hni Hnd']; subst.
  unfold new_of in *. cbn [flat_map fst snd]. rewrite map_app, count_occ_app.
  destruct Hin as [Heq | Hin].
  - injection Heq as -> ->. rewrite Hh. split; [| left; reflexivity].
    cbn [map fst count_occ]. destruct (string_dec p p); [| congruence].
    rewrite count_occ_absent; [reflexivity |].
    intros Hk. apply new_keys in Hk. apply Hni, Hk.
  - destruct (IH Hnd' Hin) as [Hc Hi].
    split; [| apply in_or_app; right; exact Hi].
    rewrite Hc. rewrite count_occ_absent; [reflexivity |].
    intros Hk.
    assert (Hp : path = p).
    { destruct (JS.has path R); [destruct Hk |].
      destruct Hk as [Hk | []]. exact Hk. }
    subst path. apply Hni. change p with (fst (p, L)). apply in_map. exact Hin.
Qed.

Lemma remoteFilesOf_NoDup (entries : list ZipEntry) :
  NoDup (map fst (remoteFilesOf entries)).
Proof.
  unfold remoteFilesOf.
  assert (Hg : forall acc : JS.Map bytes, NoDup (map fst acc) ->
            NoDup (map fst (fold_left
                     (fun m e => if isDirectory e then m
                                 else JS.set (entryName e) (getData e) m)
                     entries acc))).
  { induction entries as [| e rest IH]; intros acc Hacc; [exact Hacc |].
    cbn [fold_left]. apply IH.
    destruct (isDirectory e); [exact Hacc | apply NoDup_keys_set; exact Hacc]. }
  apply Hg. constructor.
Qed.

(** The scan keeps one binding per path. *)
Lemma scanLocalFiles_entry_NoDup (n : Fs.node) :
  forall base name (acc : JS.Map local_file),
  NoDup (map fst acc) ->
  NoDup (map fst (scanLocalFiles_entry base name n acc)).
Proof.
  induction n as [m c | m es IH] using node_nested_ind;
    intros base name acc Hacc; cbn [scanLocalFiles_entry];
    destruct (JS.startsWithDot name); try exact Hacc.
  - apply NoDup_keys_set. exact Hacc.
  - revert acc Hacc. generalize (relative_join base name) as rel.
    induction IH as [| e es He _ IHes]; intros rel acc Hacc; [exact Hacc |].
    cbn [fold_left]. apply IHes. apply He. exact Hacc.
Qed.

Lemma scanLocalFiles_NoDup (base : string) (es : list (string * Fs.node)) :
  forall acc : JS.Map local_file,
  NoDup (map fst acc) -> NoDup (map fst (scanLocalFiles base es acc)).
Proof.
  unfold scanLocalFiles. induction es as [| e es IH]; intros acc Hacc;
    [exact Hacc |].
  cbn [fold_left]. apply IH. apply scanLocalFiles_entry_NoDup. exact Hacc.
Qed.

(** ** The comparison of a sync *)

Section Compare.
Context {Srv : Type} `{Env Srv}.

Lemma snapshot_after_ensure (w1 w2 : world Srv) :
  ensureTargetDir w1 = (Ok tt, w2) ->
  local_snapshot (meta w1) (dir w2) = snapshot_of w1 /\
  meta w2 = meta w1 /\ log w2 = log w1 /\
  (forall q m c, has_file w1 q m c -> has_file w2 q m c).
Proof.
  intros Ee. destruct (ensureTargetDir_run w1) as (w2' & Ee' & Hm & Hl & _ & Hd).
  rewrite Ee in Ee'. injection Ee' as <-. unfold snapshot_of.
  destruct (dir w1) as [root |] eqn:Ed.
  - subst w2. rewrite Ed. repeat split. trivial.
  - destruct Hd as [Hd _]. rewrite Hd. split.
    + unfold local_snapshot. destruct (meta w1); reflexivity.
    + repeat split; try assumption.
      intros q m c (root & Hr & _). rewrite Ed in Hr. discriminate Hr.
Qed.

(** What the comparison leaves behind: a file whose path wins locally is as
    it was, whatever the archive holds and however the comparison ends; and
    when it ends well, its lists are the ones read off the two snapshots and
    every remote file that does not lose is on disk with the remote bytes. *)
Lemma sync_compare_summary pid (w : world Srv) r w' :
  sync_compare pid w = (r, w') ->
  meta w' = meta w /\
  (exists a, log w' = (log w ++ [EvDownload pid a])%list) /\
  (forall LF p m c,
     snapshot_of w = Some LF ->
     localWins LF (lastPullOf (meta w)) p <> None ->
     has_file w (Fs.join p) m c -> has_file w' (Fs.join p) m c) /\
  forall l, r = Ok l ->
    exists entries LF,
      log w' = (log w ++ [EvDownload pid (Some entries)])%list /\
      snapshot_of w = Some LF /\
      let R := remoteFilesOf entries in
      let lp := lastPullOf (meta w) in
      filesToUpload l = (kept_of LF lp R ++ new_of R LF)%list /\
      filesUpdatedLocally l = updated_of LF lp R /\
      filesKeptLocal l = map fst (kept_of LF lp R) /\
      filesNewLocal l = map fst (new_of R LF) /\
      forall p rc, In (p, rc) R -> localWins LF lp p = None ->
                   exists t, has_file w' (Fs.join p) t rc.
Proof.
  intros E. apply sync_compare_inv in E.
  destruct E as [((msg & ->) & Hd & Hm & _ & Hl) | E].
  { split; [exact Hm |]. split; [eauto |]. split; [| discriminate].
    intros LF p m c _ _ Hf. eapply has_file_dir; eassumption. }
  destruct E as (entries & w1 & w2 & Hd1 & Hm1 & _ & Hl1 & Ee & Hsnap).
  destruct (snapshot_after_ensure _ _ Ee) as (Hs & Hm2 & Hl2 & Hk2).
  assert (Hs1 : snapshot_of w1 = snapshot_of w).
  { unfold snapshot_of. rewrite Hd1, Hm1. reflexivity. }
  rewrite <- Hm1, Hs, Hs1 in Hsnap.
  destruct (snapshot_of w) as [LF |] eqn:Esn.
  2:{ destruct Hsnap as [(msg & ->) ->].
      split; [congruence |]. split; [exists (Some entries); congruence |].
      split; [| discriminate]. intros LF p m c HLF. discriminate HLF. }
  destruct Hsnap as (rl & Em & ->). rewrite Hm1 in Em.
  apply sync_merge_run in Em. destruct Em as (Hm3 & Hl3 & Hk3 & Hr3).
  split; [congruence |]. split; [exists (Some entries); congruence |]. split.
  - intros LF' p m c HLF Hw Hf. injection HLF as <-.
    apply Hk3.
    + intros path rc _ Hj. apply join_inj in Hj. subst path. exact Hw.
    + apply Hk2. eapply has_file_dir; eassumption.
  - intros l E. destruct rl as [l1 |]; [| discriminate E]. injection E as <-.
    exists entries, LF. split; [congruence |]. split; [reflexivity |].
    destruct (Hr3 l1 eq_refl) as (Ha & Hb & Hc & Hd & He).
    destruct (sync_new_local_lists (remoteFilesOf entries) LF l1)
      as (Ha' & Hb' & Hc' & Hd').
    cbv zeta. rewrite Ha', Hb', Hc', Hd', Ha, Hb, Hc, Hd. cbn.
    repeat split. apply He. apply remoteFilesOf_NoDup.
Qed.

End Compare.

(** ** The queue of a sync *)

Lemma has_false {V} (k : string) (m : JS.Map V) :
  JS.has k m = false <-> JS.get k m = None.
Proof. unfold JS.has. destruct (JS.get k m); split; congruence. Qed.



Lemma queue_new LF lp (R : JS.Map bytes) p L :
  NoDup (map fst LF) -> JS.get p LF = Some L -> JS.get p R = None ->
  count_occ string_dec (map fst (kept_of LF lp R ++ new_of R LF)) p = 1%nat /\
  In (p, lf_content L) (kept_of LF lp R ++ new_of R LF) /\
  count_occ string_dec (map fst (new_of R LF)) p = 1%nat.
Proof.
  intros Hnd Hg Hr.
  destruct (new_count R LF p L Hnd (get_In _ _ _ Hg) (proj2 (has_false _ _) Hr))
    as [Hc Hi].
  split; [| split; [| exact Hc]].
  - rewrite map_app, count_occ_app, Hc, count_occ_absent; [reflexivity |].
    intros Hk. apply kept_keys in Hk. destruct Hk as [Hk _].
    apply get_None_keys in Hr. contradiction.
  - apply in_or_app. right. exact Hi.
Qed.

Section SyncRules.
Context {Srv : Type} `{Env Srv}.

(** The end of a [sync] after its comparison: the directory is the one the
    comparison left, and the log has grown by requests that are no
    downloads. *)
Lemma sync_action_after_compare project (w : world Srv) r w' :
  sync_action project w = (r, w') ->
  ((exists msg, r = Throw msg) /\ same_local w w')
  \/
  exists pid w0 rc wc rest,
    same_local w w0 /\ sync_compare pid w0 = (rc, wc) /\
    dir w' = dir wc /\ log w' = (log wc ++ rest)%list /\
    Forall no_download rest /\
    match rc with
    | Throw msg => r = Throw msg /\ rest = []
    | Ok l => (forall l', r = Ok l' -> l' = l) /\
              (filesToUpload l = [] -> r = Ok l /\ rest = [])
    end.
Proof.
  intros E. apply sync_action_inv in E. destruct E as [E | E]; [left; exact E |].
  right. destruct E as (pid & w0 & rc & wc & Hsame & Ec & Hend).
  exists pid, w0, rc, wc.
  destruct rc as [l | msg].
  - destruct Hend as (ru & wu & Eu & Hend).
    pose proof (sync_upload_local _ _ _ _ _ Eu) as (Hdu & _ & evu & Hlu & Hev).
    exists evu. split; [exact Hsame |]. split; [exact Ec |].
    destruct ru as [u |].
    + destruct Hend as (-> & Hd & Hl & _).
      split; [congruence |]. split; [congruence |]. split; [exact Hev |].
      split; [intros l' E; injection E as <-; reflexivity |].
      intros Hnil. split; [reflexivity |]. rewrite Hnil in Eu.
      cbn in Eu. injection Eu as _ Hw. subst wu.
      apply delta_nil in Hlu. exact Hlu.
    + destruct Hend as [-> ->].
      split; [exact Hdu |]. split; [exact Hlu |]. split; [exact Hev |].
      split; [discriminate |].
      intros Hnil. rewrite Hnil in Eu. discriminate Eu.
  - destruct Hend as [-> ->]. exists [].
    split; [exact Hsame |]. split; [exact Ec |].
    split; [reflexivity |]. split; [symmetry; apply app_nil_r |].
    split; [constructor | split; reflexivity].
Qed.


(** C5 (amended). When the directory has a state file, a file the scan
    lists at a path the archive has not is, at the end of a [sync] that
    ends well, in the upload queue exactly once, with its bytes, and once
    among the new local files. *)
Theorem sync_queues_new_files project (w : world Srv) w' m0 dm es p L l :
  meta w = Some m0 ->
  dir w = Some (Fs.Dir dm es) ->
  JS.get p (scanLocalFiles "" es []) = Some L ->
  sync_action project w = (Ok l, w') ->
  exists pid entries rest,
    log w' = (log w ++ EvDownload pid (Some entries) :: rest)%list /\
    Forall no_download rest /\
    (JS.get p (remoteFilesOf entries) = None ->
     count_occ string_dec (map fst (filesToUpload l)) p = 1%nat /\
     In (p, lf_content L) (filesToUpload l) /\
     count_occ string_dec (filesNewLocal l) p = 1%nat).
Proof.
  intros Hm Hd Hg E.
  apply sync_action_after_compare in E.
  destruct E as [((msg & E) & _) | E]; [discriminate E |].
  destruct E as (pid & w0 & rc & wc & rest & (Hd0 & Hm0 & Hl0 & _) & Ec
                 & Hdw & Hlw & Hrest & Hend).
  apply sync_compare_summary in Ec.
  destruct Ec as (_ & _ & _ & Hlists).
  assert (Hsnap : snapshot_of w0 = Some (scanLocalFiles "" es [])).
  { unfold snapshot_of. rewrite Hd0, Hd, Hm0, Hm. reflexivity. }
  destruct rc as [l0 | msg]; [| destruct Hend; discriminate].
  destruct Hend as [Hl' _]. specialize (Hl' l eq_refl). subst l0.
  destruct (Hlists l eq_refl) as (entries & LF & Hlc & HLF & Hq).
  cbv zeta in Hq. destruct Hq as (Ha & _ & _ & Hn & _).
  rewrite Hsnap in HLF. injection HLF as <-.
  exists pid, entries, rest.
  split; [rewrite Hlw, Hlc, Hl0, <- app_assoc; reflexivity |].
  split; [exact Hrest |]. intros Hr. rewrite Ha, Hn.
  apply queue_new; [| exact Hg | exact Hr].
  apply scanLocalFiles_NoDup. constructor.
Qed.


End SyncRules.


Lemma sync_queues_new_files_witness :
  exists l w',
    sync_action None
      (Demo.start Demo.shifted (dir Demo.unbound) (meta Demo.edited))
    = (Ok l, w') /\
    count_occ string_dec (map fst (filesToUpload l)) "new.tex" = 1%nat.
Proof.
  pose (w := Demo.start Demo.shifted (dir Demo.unbound) (meta Demo.edited)).
  assert (Hrun : exists l, sync_action None w = (Ok l, snd (sync_action None w))).
  { eexists. vm_compute. reflexivity. }
  destruct Hrun as [l Hrun]. exists l, (snd (sync_action None w)).
  split; [exact Hrun |].
  destruct (sync_queues_new_files None w _ _ 1400 _ "new.tex"
              {| lf_mtime := 2100; lf_content := Demo.b "N" |} l
              eq_refl eq_refl eq_refl Hrun)
    as (pid & entries & rest & Hlog & _ & Hq).
  apply Hq.
  assert (He : entries = [ {| entryName := "main.tex"; isDirectory := false;
                              getData := Demo.b "A" |} ]).
  { apply (f_equal (fun evs => match evs with
                               | EvDownload _ (Some es) :: _ => es
                               | _ => []
                               end)) in Hlog.
    vm_compute in Hlog. symmetry. exact Hlog. }
  subst entries. reflexivity.
Defined.

(** C5, as stated, fails: in a directory without a state file the scan is
    not run, and a local file the archive has not is not queued. *)
Lemma sync_not_always_queued : ~ always_queued.
Proof.
  intros Hc.
  pose (l := {| filesToUpload := []; filesUpdatedLocally := ["main.tex"];
                filesKeptLocal := []; filesNewLocal := [] |}).
  assert (Hrun : sync_action (Some "paper") Demo.unbound =
                 (Ok l, snd (sync_action (Some "paper") Demo.unbound)))
    by (vm_compute; reflexivity).
  assert (Hlog : log (snd (sync_action (Some "paper") Demo.unbound)) =
                 (log Demo.unbound ++
                  EvDownload "paper" (Demo.archive Demo.shifted) :: [])%list)
    by (vm_compute; reflexivity).
  specialize (Hc Demo.service Demo.env (Some "paper") Demo.unbound l _
                1400 _ "new.tex" {| lf_mtime := 2100; lf_content := Demo.b "N" |}
                "paper" _ [] eq_refl eq_refl Hrun Hlog eq_refl).
  discriminate Hc.
Qed.


(** ** push *)

Lemma listed_cons name n es cur base f m :
  listed ((name, n) :: es) cur base f m <->
  (JS.startsWithDot name = false /\
   match n with
   | Fs.File m' _ =>
       f = {| pf_path := (cur ++ [name])%list;
              relativePath := relative_join base name |} /\ m = m'
   | Fs.Dir _ sub =>
       listed sub (cur ++ [name])%list (relative_join base name) f m
   end) \/
  listed es cur base f m.
Proof.
  split.
  - intros Hl. inversion Hl as [? ? ? name' m' c Hin Hdot | ? ? ? name' dm sub ? ? Hin Hdot Hsub];
      subst; (destruct Hin as [Heq | Hin]; [injection Heq as -> -> |]).
    + left. split; [exact Hdot | split; reflexivity].
    + right. eapply listed_here; eassumption.
    + left. split; [exact Hdot | exact Hsub].
    + right. eapply listed_below; eassumption.
  - intros [[Hdot Hn] | Hl].
    + destruct n as [m' c | dm sub].
      * destruct Hn as [-> ->]. apply listed_here with (c := c);
          [left; reflexivity | exact Hdot].
      * eapply listed_below; [left; reflexivity | exact Hdot | exact Hn].
    + inversion Hl; subst.
      * eapply listed_here; [right; eassumption | assumption].
      * eapply listed_below; [right; eassumption | assumption | assumption].
Qed.

Lemma listed_nil cur base f m : ~ listed [] cur base f m.
Proof. intros Hl. inversion Hl; subst; contradiction. Qed.

(** One entry of the scan adds the candidates it holds, and only them. *)
Lemma scanDir_entry_spec all lp (n : Fs.node) :
  forall cur base name acc f,
  In f (scanDir_entry all lp cur base name n acc) <->
  In f acc \/
  exists m, listed [(name, n)] cur base f m /\ candidate all lp m.
Proof.
  induction n as [m c | dm sub IH] using node_nested_ind;
    intros cur base name acc f; cbn [scanDir_entry].
  - destruct (JS.startsWithDot name) eqn:Hdot.
    + split; [intros Hin; left; exact Hin |].
      intros [Hin | (m' & Hl & _)]; [exact Hin |].
      apply listed_cons in Hl. destruct Hl as [[Hd _] | Hl]; [congruence |].
      destruct (listed_nil _ _ _ _ Hl).
    + assert (Hiff : forall m',
                listed [(name, Fs.File m c)] cur base f m' <->
                f = {| pf_path := (cur ++ [name])%list;
                       relativePath := relative_join base name |} /\ m' = m).
      { intros m'. rewrite listed_cons. split.
        - intros [[_ Hn] | Hl]; [exact Hn | destruct (listed_nil _ _ _ _ Hl)].
        - intros Hn. left. split; [exact Hdot | exact Hn]. }
      unfold candidate.
      destruct lp as [t |]; [destruct all; [| destruct (t <? m) eqn:Hlt] |];
        rewrite ?in_app_iff; cbn [In]; split;
        try (intros [Hin | [<- | []]];
             [left; exact Hin
             | right; exists m; split;
               [apply Hiff; split; reflexivity
               | first [left; reflexivity
                       | right; left; reflexivity
                       | right; right; exists t; split;
                         [reflexivity | apply Z.ltb_lt; exact Hlt]]]]);
        try (intros [Hin | (m' & Hl & Hc)];
             [left; exact Hin
             | apply Hiff in Hl; destruct Hl as [-> ->]; right; left; reflexivity]).
      * intros Hin. left. exact Hin.
      * intros [Hin | (m' & Hl & Hc)]; [exact Hin |].
        apply Hiff in Hl. destruct Hl as [-> ->]. exfalso.
        destruct Hc as [Hc | [Hc | (t' & Hc & Hlt')]]; try discriminate Hc.
        injection Hc as <-. apply Z.ltb_ge in Hlt. lia.
  - destruct (JS.startsWithDot name) eqn:Hdot.
    + split; [intros Hin; left; exact Hin |].
      intros [Hin | (m' & Hl & _)]; [exact Hin |].
      apply listed_cons in Hl. destruct Hl as [[Hd _] | Hl]; [congruence |].
      destruct (listed_nil _ _ _ _ Hl).
    + assert (Hsub : forall acc0,
                In f (fold_left
                        (fun a e => scanDir_entry all lp (cur ++ [name])%list
                                      (relative_join base name) (fst e) (snd e) a)
                        sub acc0) <->
                In f acc0 \/
                exists m, listed sub (cur ++ [name])%list
                            (relative_join base name) f m /\ candidate all lp m).
      { generalize (cur ++ [name])%list as cur'.
        generalize (relative_join base name) as base'. intros base' cur'.
        induction IH as [| [name' n'] sub' He _ IHsub]; intros acc0;
          cbn [fold_left fst snd].
        - split; [intros Hin; left; exact Hin |].
          intros [Hin | (m' & Hl & _)]; [exact Hin |].
          destruct (listed_nil _ _ _ _ Hl).
        - rewrite IHsub. cbn [snd] in He. rewrite He. split.
          + intros [[Hin | (m' & Hl & Hc)] | (m' & Hl & Hc)].
            * left. exact Hin.
            * right. exists m'. split; [| exact Hc].
              apply listed_cons in Hl.
              destruct Hl as [Hl | Hl]; [| destruct (listed_nil _ _ _ _ Hl)].
              apply listed_cons. left. exact Hl.
            * right. exists m'. split; [| exact Hc].
              apply listed_cons. right. exact Hl.
          + intros [Hin | (m' & Hl & Hc)]; [left; left; exact Hin |].
            apply listed_cons in Hl. destruct Hl as [Hl | Hl].
            * left. right. exists m'. split; [| exact Hc].
              apply listed_cons. left. exact Hl.
            * right. exists m'. split; assumption. }
      rewrite Hsub. split.
      * intros [Hin | (m' & Hl & Hc)]; [left; exact Hin |].
        right. exists m'. split; [| exact Hc].
        apply listed_cons. left. split; [exact Hdot | exact Hl].
      * intros [Hin | (m' & Hl & Hc)]; [left; exact Hin |].
        right. exists m'. split; [| exact Hc].
        apply listed_cons in Hl.
        destruct Hl as [[_ Hl] | Hl]; [exact Hl | destruct (listed_nil _ _ _ _ Hl)].
Qed.

(** The scan of a directory returns the candidates among its listed files. *)
Lemma scanDir_spec all lp (es : list (string * Fs.node)) :
  forall cur base acc f,
  In f (scanDir all lp cur base es acc) <->
  In f acc \/ exists m, listed es cur base f m /\ candidate all lp m.
Proof.
  unfold scanDir. induction es as [| [name n] es IH]; intros cur base acc f;
    cbn [fold_left fst snd].
  - split; [intros Hin; left; exact Hin |].
    intros [Hin | (m & Hl & _)]; [exact Hin | destruct (listed_nil _ _ _ _ Hl)].
  - rewrite IH, scanDir_entry_spec. split.
    + intros [[Hin | (m & Hl & Hc)] | (m & Hl & Hc)].
      * left. exact Hin.
      * right. exists m. split; [| exact Hc].
        apply listed_cons in Hl.
        destruct Hl as [Hl | Hl]; [| destruct (listed_nil _ _ _ _ Hl)].
        apply listed_cons. left. exact Hl.
      * right. exists m. split; [| exact Hc]. apply listed_cons. right. exact Hl.
    + intros [Hin | (m & Hl & Hc)]; [left; left; exact Hin |].
      apply listed_cons in Hl. destruct Hl as [Hl | Hl].
      * left. right. exists m. split; [| exact Hc].
        apply listed_cons. left. exact Hl.
      * right. exists m. split; assumption.
Qed.

Section Push.
Context {Srv : Type} `{Env Srv}.

Lemma push_loop_counts pid (files : list push_file) :
  forall uploaded failed (w : world Srv) r w',
  push_loop pid files uploaded failed w = (r, w') ->
  exists u f, r = Ok (u, f) /\
              (u + f = uploaded + failed + List.length files)%nat.
Proof.
  induction files as [| file rest IH]; intros uploaded failed w r w' E.
  - injection E as <- <-. exists uploaded, failed. split; [reflexivity |].
    cbn. lia.
  - cbn [push_loop] in E. unfold bind at 1 in E. unfold try at 1 in E.
    destruct ((content <- readFileSync (pf_path file);;
               uploadFile pid None (relativePath file) content) w)
      as [[res | msg] w1];
      apply IH in E; destruct E as (u & f & -> & Hc);
      exists u, f; (split; [reflexivity |]); cbn [List.length]; lia.
Qed.

(** C4. In [push] the files to upload are, among the local files the scanner
    lists, exactly those for which [all] is set, or no [lastPull] is
    recorded, or the modification time is strictly after [lastPull]. With
    [dryRun] the call reports that list (or that there is nothing to upload
    when it is empty) and changes nothing: no request is sent, the directory
    and the state file are as before. Without [dryRun] the files counted as
    uploaded or failed are as many as the candidates. *)
Theorem push_candidates :
  (forall all lp es f,
     In f (scanDir all lp [] "" es []) <->
     exists m, listed es [] "" f m /\ candidate all lp m) /\
  (forall project all (w : world Srv) r w',
     push_action project all true w = (r, w') ->
     same_local w w' /\
     forall outcome, r = Ok outcome ->
       exists dm es, dir w = Some (Fs.Dir dm es) /\
         match scanDir all (lastPullOf (meta w)) [] "" es [] with
         | [] => outcome = NoFilesToUpload
         | files => outcome = WouldUpload files
         end) /\
  (forall project all (w : world Srv) r w',
     push_action project all false w = (r, w') ->
     forall outcome, r = Ok outcome ->
       exists dm es, dir w = Some (Fs.Dir dm es) /\
         match scanDir all (lastPullOf (meta w)) [] "" es [] with
         | [] => outcome = NoFilesToUpload
         | files => exists u f, outcome = Uploaded u f /\
                                (u + f = List.length files)%nat
         end).
Proof.
  split; [| split].
  - intros all lp es f. rewrite scanDir_spec. cbn [In]. tauto.
  - intros project all w r w' E. unfold push_action in E.
    unfold bind at 1 in E. unfold readMeta at 1 in E.
    match type of E with
    | (if ?c then _ else _) _ = _ => destruct c
    end.
    { injection E as <- <-. split; [apply same_local_refl | discriminate]. }
    apply bind_inv in E. destruct E as [(u & wa & Ea & E) | (msg & Ea & ->)];
      apply getClient_local in Ea; [| split; [exact Ea | discriminate]].
    apply bind_inv in E. destruct E as [(proj & wb & Eb & E) | (msg & Eb & ->)];
      apply settle_local in Eb;
      pose proof (same_local_trans _ _ _ Ea Eb) as Hab;
      [| split; [exact Hab | discriminate]].
    pose proof Hab as (Hd & _).
    unfold bind at 1 in E. unfold readdirSync_root in E. rewrite Hd in E.
    destruct (dir w) as [[| dm es] |];
      try (injection E as <- <-; split; [exact Hab | discriminate]).
    destruct (scanDir all (lastPullOf (meta w)) [] "" es []) as [| f0 files] eqn:Es;
      cbn in E; injection E as <- <-;
      (split; [exact Hab |]);
      intros outcome Eo; injection Eo as <-;
      exists dm, es; (split; [reflexivity |]); rewrite Es; reflexivity.
  - intros project all w r w' E outcome ->. unfold push_action in E.
    unfold bind at 1 in E. unfold readMeta at 1 in E.
    match type of E with
    | (if ?c then _ else _) _ = _ => destruct c
    end.
    { discriminate E. }
    apply bind_inv in E. destruct E as [(u & wa & Ea & E) | (msg & Ea & E)];
      [| discriminate E].
    apply getClient_local in Ea.
    apply bind_inv in E. destruct E as [(proj & wb & Eb & E) | (msg & Eb & E)];
      [| discriminate E].
    apply settle_local in Eb.
    destruct (same_local_trans _ _ _ Ea Eb) as (Hd & Hm & Hl & Ht).
    unfold bind at 1 in E. unfold readdirSync_root in E. rewrite Hd in E.
    destruct (dir w) as [[| dm es] |]; try discriminate E.
    exists dm, es. split; [reflexivity |].
    destruct (scanDir all (lastPullOf (meta w)) [] "" es []) as [| f0 files] eqn:Es.
    + cbn in E. injection E as <- _. reflexivity.
    + cbn [negb] in E. apply bind_inv in E.
      destruct E as [(counts & wc & Ec & E) | (msg & Ec & E)]; [| discriminate E].
      apply push_loop_counts in Ec. destruct Ec as (u1 & f1 & Ec & Hc).
      injection Ec as ->.
      apply bind_inv in E.
      destruct E as [(m1 & wd & Ed & E) | (msg & Ed & E)]; [| discriminate E].
      apply bind_inv in E.
      destruct E as [(u2 & we & Ee & E) | (msg & Ee & E)]; [| discriminate E].
      injection E as <- _. exists u1, f1. split; [reflexivity |].
      cbn [fst snd]. lia.
Qed.

End Push.

Lemma push_candidates_witness :
  fst (push_action None false true Demo.edited) =
    Ok (WouldUpload [ {| pf_path := ["main.tex"]; relativePath := "main.tex" |} ])
  /\ same_local Demo.edited (snd (push_action None false true Demo.edited)).
Proof.
  split; [vm_compute; reflexivity |].
  exact (proj1 (proj1 (proj2 push_candidates) None false Demo.edited _ _
                  (surjective_pairing _))).
Defined.

(** ** Modification times *)








Section Times.
Context {Srv : Type} `{Env Srv}.




End Times.

(** ** Two pulls in a row *)

Section Twice.
Context {Srv : Type} `{Env Srv}.
Hypothesis clock_monotone :
  forall i j, (i <= j)%nat -> env_clock i <= env_clock j.







End Twice.




(** ** Names of the files sent *)

Lemma split_app_sep (sep : ascii) (a b : string) :
  JS.split sep (a ++ String sep b) = (JS.split sep a ++ JS.split sep b)%list.
Proof.
  induction a as [| c a IH]; cbn [append JS.split].
  - rewrite Ascii.eqb_refl. reflexivity.
  - rewrite IH. pose proof (split_nonempty sep a) as Hne.
    destruct (Ascii.eqb c sep); [reflexivity |].
    destruct (JS.split sep a); [contradiction | reflexivity].
Qed.

Lemma split_no_sep (sep : ascii) (s : string) :
  contains sep s = false -> JS.split sep s = [s].
Proof.
  induction s as [| c s IH]; cbn [contains JS.split]; [reflexivity |].
  intros Hc. apply orb_false_elim in Hc. destruct Hc as [Hc Hs].
  rewrite Hc, (IH Hs). reflexivity.
Qed.

(** A relative path built by the scan ends in the name of the file, and
    that name is what [uploadFile] keeps of it. *)
Lemma baseNameOf_relative_join (base own : string) :
  own <> "" -> contains "/"%char own = false ->
  baseNameOf (relative_join base own) = own.
Proof.
  intros Hne Hc. unfold baseNameOf, relative_join.
  assert (Hlast : JS.pop (JS.split "/"%char
                    (if String.eqb base "" then own else base ++ "/" ++ own))
                  = Some own).
  { destruct (String.eqb base "").
    - rewrite split_no_sep by exact Hc. reflexivity.
    - change (base ++ "/" ++ own) with (base ++ String "/"%char own).
      rewrite split_app_sep, (split_no_sep "/" own Hc).
      unfold JS.pop. rewrite last_last.
      destruct (JS.split "/"%char base ++ [own])%list eqn:E; [| reflexivity].
      apply app_eq_nil in E. destruct E as [_ E]. discriminate E. }
  rewrite Hlast. cbn [JS.truthy].
  destruct (String.eqb_spec own ""); [contradiction | reflexivity].
Qed.

Lemma listed_base_name es cur base f m :
  listed es cur base f m ->
  last (pf_path f) "" <> "" ->
  contains "/"%char (last (pf_path f) "") = false ->
  baseNameOf (relativePath f) = last (pf_path f) "".
Proof.
  intros Hl. induction Hl as [es cur base own m c Hin Hdot | ]; [| assumption].
  cbn [pf_path relativePath]. rewrite last_last.
  apply baseNameOf_relative_join.
Qed.

(** The paths of the snapshot of a [sync] are relative paths of listed
    files. *)
Lemma scanLocalFiles_entry_keys (n : Fs.node) :
  forall cur base own (acc : JS.Map local_file) k,
  In k (map fst (scanLocalFiles_entry base own n acc)) ->
  In k (map fst acc) \/
  exists f m, listed [(own, n)] cur base f m /\ relativePath f = k.
Proof.
  induction n as [m c | dm sub IH] using node_nested_ind;
    intros cur base own acc k; cbn [scanLocalFiles_entry];
    destruct (JS.startsWithDot own) eqn:Hdot; try (intros Hin; left; exact Hin).
  - rewrite keys_set. intros [-> | Hin]; [right | left; exact Hin].
    exists {| pf_path := (cur ++ [own])%list;
              relativePath := relative_join base own |}, m.
    split; [| reflexivity].
    apply listed_here with (c := c); [left; reflexivity | exact Hdot].
  - assert (Hsub : forall acc0,
              In k (map fst (fold_left
                      (fun a e => scanLocalFiles_entry (relative_join base own)
                                    (fst e) (snd e) a) sub acc0)) ->
              In k (map fst acc0) \/
              exists f m, listed sub (cur ++ [own])%list (relative_join base own) f m
                          /\ relativePath f = k).
    { generalize (cur ++ [own])%list as cur'.
      generalize (relative_join base own) as base'. intros base' cur'.
      induction IH as [| [own' n'] sub' He _ IHsub]; intros acc0;
        cbn [fold_left fst snd]; [intros Hin; left; exact Hin |].
      intros Hin. apply IHsub in Hin. cbn [snd] in He.
      destruct Hin as [Hin | (f & m & Hl & Hk)].
      - apply (He cur') in Hin. destruct Hin as [Hin | (f & m & Hl & Hk)];
          [left; exact Hin |].
        right. exists f, m. split; [| exact Hk].
        apply listed_cons in Hl.
        destruct Hl as [Hl | Hl]; [| destruct (listed_nil _ _ _ _ Hl)].
        apply listed_cons. left. exact Hl.
      - right. exists f, m. split; [| exact Hk].
        apply listed_cons. right. exact Hl. }
    intros Hin. apply Hsub in Hin.
    destruct Hin as [Hin | (f & m & Hl & Hk)]; [left; exact Hin |].
    right. exists f, m. split; [| exact Hk].
    apply listed_cons. left. split; [exact Hdot | exact Hl].
Qed.

Lemma scanLocalFiles_keys (es : list (string * Fs.node)) :
  forall cur base (acc : JS.Map local_file) k,
  In k (map fst (scanLocalFiles base es acc)) ->
  In k (map fst acc) \/
  exists f m, listed es cur base f m /\ relativePath f = k.
Proof.
  unfold scanLocalFiles. induction es as [| [own n] es IH];
    intros cur base acc k; cbn [fold_left fst snd]; [intros Hin; left; exact Hin |].
  intros Hin. apply (IH cur) in Hin.
  destruct Hin as [Hin | (f & m & Hl & Hk)].
  - apply (scanLocalFiles_entry_keys n cur) in Hin.
    destruct Hin as [Hin | (f & m & Hl & Hk)]; [left; exact Hin |].
    right. exists f, m. split; [| exact Hk].
    apply listed_cons in Hl.
    destruct Hl as [Hl | Hl]; [| destruct (listed_nil _ _ _ _ Hl)].
    apply listed_cons. left. exact Hl.
  - right. exists f, m. split; [| exact Hk]. apply listed_cons. right. exact Hl.
Qed.

(** C9 (amended). [uploadFile] sends a file under the final segment of
    [fileName] split at '/' when that segment is not empty, and under the
    whole [fileName] when it is empty (a name ending in '/'). Called without
    a folder, its first request goes to the folder [getRootFolderId]
    resolves, and every request of the call that is not a probe carries that
    same name: a relative path never reaches the service. The files [push]
    and [sync] upload are listed files passed by their relative paths, and
    the name kept of such a path is the own name of the file, whatever
    directories it lies in. *)
Theorem uploadFile_base_name {Srv : Type} `{Env Srv} :
  (forall (pid fileName : string) (content : bytes) (w : world Srv) r w',
     uploadFile pid None fileName content w = (r, w') ->
     (last_segment fileName <> "" ->
      baseNameOf fileName = last_segment fileName) /\
     (last_segment fileName = "" -> baseNameOf fileName = fileName) /\
     exists root w0 rep1 rest,
       getRootFolderId pid w = (Ok root, w0) /\
       log w' =
         (log w ++
          EvUpload pid root
            {| targetFolderId := root; name := baseNameOf fileName;
               type := mimeTypeOf (baseNameOf fileName); qqfile := content |}
            rep1
          :: rest)%list /\
       Forall (fun e => is_probe pid e \/
                        exists folder reply form,
                          e = EvUpload pid folder form reply /\
                          name form = baseNameOf fileName /\
                          targetFolderId form = folder) rest) /\
  (forall all lp es f,
     In f (scanDir all lp [] "" es []) ->
     exists m, listed es [] "" f m) /\
  (forall es k,
     In k (map fst (scanLocalFiles "" es [])) ->
     exists f m, listed es [] "" f m /\ relativePath f = k) /\
  (forall es cur base f m,
     listed es cur base f m ->
     last (pf_path f) "" <> "" ->
     contains "/"%char (last (pf_path f) "") = false ->
     baseNameOf (relativePath f) = last (pf_path f) "").
Proof.
  split; [| split; [| split]].
  - intros pid fileName content w r w'. apply uploadFile_requests.
  - intros all lp es f Hin. apply scanDir_spec in Hin.
    destruct Hin as [[] | (m & Hl & _)]. exists m. exact Hl.
  - intros es k Hin. apply (scanLocalFiles_keys es []) in Hin.
    destruct Hin as [[] | Hin]. exact Hin.
  - intros es cur base f m. apply listed_base_name.
Qed.

Lemma uploadFile_base_name_witness :
  baseNameOf "figures/plot.png" = "plot.png" /\
  exists root w0,
    getRootFolderId Demo.project (Demo.start Demo.shifted None None)
    = (Ok root, w0).
Proof.
  destruct (proj1 uploadFile_base_name Demo.project "figures/plot.png"
              (Demo.b "x") (Demo.start Demo.shifted None None) _ _
              (surjective_pairing _))
    as (Hseg & _ & root & w0 & _ & _ & Hr & _).
  split; [apply Hseg; vm_compute; discriminate | exists root, w0; exact Hr].
Defined.

(** C9, as stated, fails: a name ending in '/' has an empty final segment
    and is sent whole. *)
Lemma uploadFile_not_always_last_segment : ~ always_last_segment.
Proof.
  intros Hc. specialize (Hc "figures/" eq_refl). vm_compute in Hc.
  discriminate Hc.
Qed.

(** * Further properties of the actions *)

(** ** What a pull leaves on disk *)

Section PullDisk.
Context {Srv : Type} `{Env Srv}.


(** A [pull] stops for want of a project, or runs with the identity the
    state file gave. *)
Lemma pull_action_files project force (w : world Srv) r w' :
  pull_action project force w = (r, w') ->
  (r = Throw "No project specified." /\ w' = w) \/
  exists known, pull_files known project force w = (r, w').
Proof.
  unfold pull_action, bind, readMeta. intros E.
  destruct (JS.truthy project); [right; eexists; exact E |].
  destruct (meta w); [right; eexists; exact E |].
  left. injection E as <- <-. split; reflexivity.
Qed.

(** One file entry: every file at another path is as it was; the entry is
    skipped and nothing changes, or it is written with its bytes. *)
Lemma pull_entry_step force lp e c (w : world Srv) r w' :
  isDirectory e = false ->
  pull_entry force lp e c w = (r, w') ->
  (forall q m d, q <> Fs.join (entryName e) ->
                 has_file w q m d -> has_file w' q m d) /\
  forall c', r = Ok c' ->
    if locally_newer force lp (dir w) (Fs.join (entryName e))
    then w' = w /\ fileCount c' = fileCount c /\
         skippedCount c' = S (skippedCount c) /\
         skippedFiles c' = (skippedFiles c ++ [entryName e])%list
    else c' = written c /\
         exists t, has_file w' (Fs.join (entryName e)) t (getData e).
Proof.
  intros Hd. rewrite pull_entry_eq by exact Hd.
  destruct (locally_newer force lp (dir w) (Fs.join (entryName e))).
  - intros E. injection E as <- <-. split; [trivial |].
    intros c' E. injection E as <-. repeat split.
  - intros E. apply bind_inv in E.
    destruct E as [(u & w1 & E1 & E) | (msg & E1 & ->)].
    + apply bind_inv in E.
      destruct E as [(u2 & w2 & E2 & E) | (msg & E2 & ->)].
      * injection E as <- <-. split.
        -- intros q m d Hne Hf.
           eapply writeFileSync_keeps; [exact E2 | exact Hne |].
           eapply ensureDir_keeps; eassumption.
        -- intros c' E. injection E as <-. split; [reflexivity |].
           destruct u2. eexists. eapply writeFileSync_writes. exact E2.
      * split; [| discriminate]. intros q m d Hne Hf.
        eapply writeFileSync_keeps; [exact E2 | exact Hne |].
        eapply ensureDir_keeps; eassumption.
    + split; [| discriminate]. intros q m d _ Hf.
      eapply ensureDir_keeps; eassumption.
Qed.

(** The loop: files at paths the archive does not name are as they were,
    and the tallies add up to the file entries. *)
Lemma pull_loop_keeps force lp entries :
  forall c (w : world Srv) r w',
  pull_loop force lp entries c w = (r, w') ->
  (forall q m d, ~ In q (file_paths entries) ->
                 has_file w q m d -> has_file w' q m d) /\
  forall c', r = Ok c' ->
    exists sk, skippedFiles c' = (skippedFiles c ++ sk)%list /\
      skippedCount c' = (skippedCount c + List.length sk)%nat /\
      (fileCount c' + List.length sk =
       fileCount c + List.length (file_paths entries))%nat /\
      incl sk (map entryName (filter (fun e => negb (isDirectory e)) entries)).
Proof.
  induction entries as [| e rest IH]; intros c w r w' E.
  - injection E as <- <-. split; [trivial |]. intros c' E. injection E as <-.
    exists []. rewrite app_nil_r. cbn. repeat split; try lia. intros x [].
  - cbn [pull_loop] in E. unfold file_paths in *. cbn [filter].
    apply bind_inv in E.
    destruct (isDirectory e) eqn:Hd; cbn [negb map].
    + destruct E as [(c1 & w1 & E1 & E) | (msg & E1 & ->)];
        unfold pull_entry in E1; rewrite Hd in E1; [| discriminate E1].
      injection E1 as <- <-. apply IH in E. exact E.
    + destruct E as [(c1 & w1 & E1 & E) | (msg & E1 & ->)];
        apply pull_entry_step in E1; try exact Hd; destruct E1 as [Hk1 Hc1].
      * apply IH in E. destruct E as [Hk2 Hc2]. split.
        -- intros q m d Hni Hf.
           apply Hk2; [intros Hin; apply Hni; right; exact Hin |].
           apply Hk1; [intros ->; apply Hni; left; reflexivity | exact Hf].
        -- intros c' ->. destruct (Hc2 c' eq_refl) as (sk & Hs & Hn & Hf & Hi).
           specialize (Hc1 c1 eq_refl).
           destruct (locally_newer force lp (dir w) (Fs.join (entryName e))).
           ++ destruct Hc1 as (_ & Hfc & Hsc & Hsf).
              exists (entryName e :: sk). rewrite Hs, Hsf, <- app_assoc.
              cbn [List.length app]. repeat split; try lia.
              intros x [<- | Hx]; [left; reflexivity | right; apply Hi; exact Hx].
           ++ destruct Hc1 as [-> _]. cbn in Hs, Hn, Hf. exists sk.
              cbn [List.length]. repeat split; try assumption; try lia.
              intros x Hx. right. apply Hi. exact Hx.
      * split; [| discriminate]. intros q m d Hni Hf.
        apply Hk1; [intros ->; apply Hni; left; reflexivity | exact Hf].
Qed.


(** How a [pull] that ends well went. *)
Lemma pull_action_ok project force (w : world Srv) c w' :
  pull_action project force w = (Ok c, w') ->
  exists pid entries w2 wl pn,
    log w' = (log w ++ [EvDownload pid (Some entries)])%list /\
    (forall q m d, has_file w q m d -> has_file w2 q m d) /\
    pull_loop force (lastPullOf (meta w)) entries pull_start w2 = (Ok c, wl) /\
    dir w' = dir wl /\ ticks w' = S (ticks wl) /\
    meta w' = Some {| projectId := Some pid; projectName := pn;
                      lastPull := Some (env_clock (ticks wl));
                      lastPush := None; lastSync := None |}.
Proof.
  intros E. apply pull_action_files in E.
  destruct E as [[E _] | [known E]]; [discriminate E |].
  apply pull_files_inv in E.
  destruct E as [((msg & E) & _) | E]; [discriminate E |].
  destruct E as (pid & entries & w1 & w2 & rl & wl & Hd1 & Hm1 & Ht1 & Hl1
                 & Ee & Eloop & Hend).
  destruct rl as [c0 | msg]; [| destruct Hend as [Hend _]; discriminate Hend].
  destruct Hend as (Hc & Hdw & Hlw & Htw & pn & Hm). injection Hc as <-.
  destruct (ensureTargetDir_run w1) as (w2' & Ee' & _ & Hl2 & _ & Hd2).
  rewrite Ee in Ee'. injection Ee' as <-.
  pose proof (pull_loop_quiet _ _ _ _ _ _ _ Eloop) as (_ & Hll & _).
  exists pid, entries, w2, wl, pn.
  split; [congruence |]. split.
  - intros q m d (root & Hr & Hq). rewrite <- Hd1 in Hr. rewrite Hr in Hd2.
    subst w2. exists root. split; assumption.
  - repeat split; assumption.
Qed.


(** The tallies and the record of a [pull] that ends well: written and
    skipped entries are as many as the file entries of the archive, the
    skipped names are names of file entries, as many as the skipped count;
    the state file then holds the project, the last reading of the clock as
    [lastPull], and neither [lastPush] nor [lastSync], whatever it held. *)
Theorem pull_bookkeeping project force (w : world Srv) c w' :
  pull_action project force w = (Ok c, w') ->
  exists pid entries pn,
    log w' = (log w ++ [EvDownload pid (Some entries)])%list /\
    (fileCount c + skippedCount c = List.length (file_paths entries))%nat /\
    List.length (skippedFiles c) = skippedCount c /\
    incl (skippedFiles c)
         (map entryName (filter (fun e => negb (isDirectory e)) entries)) /\
    meta w' = Some {| projectId := Some pid; projectName := pn;
                      lastPull := Some (env_clock (Nat.pred (ticks w')));
                      lastPush := None; lastSync := None |}.
Proof.
  intros E. apply pull_action_ok in E.
  destruct E as (pid & entries & w2 & wl & pn & Hl & _ & Eloop & _ & Ht & Hm).
  exists pid, entries, pn. split; [exact Hl |].
  pose proof (pull_loop_keeps _ _ _ _ _ _ _ Eloop) as [_ Hk].
  destruct (Hk c eq_refl) as (sk & Hs & Hn & Hf & Hi).
  cbn in Hs, Hn, Hf. subst sk.
  split; [lia |]. split; [lia |]. split; [exact Hi |].
  rewrite Ht. exact Hm.
Qed.

End PullDisk.

(** ** Files the archive does not name *)





Section Outlive.
Context {Srv : Type} `{Env Srv}.

(** The upload loop of [push] touches neither the directory nor the state
    file, asks for no archive and never throws. *)
Lemma push_loop_local pid (files : list push_file) :
  forall uploaded failed (w : world Srv) r w',
  push_loop pid files uploaded failed w = (r, w') ->
  dir w' = dir w /\ meta w' = meta w /\
  (exists counts, r = Ok counts) /\
  exists evs, log w' = (log w ++ evs)%list /\ Forall no_download evs.
Proof.
  induction files as [| file rest IH]; intros uploaded failed w r w' E.
  - injection E as <- <-. repeat split; [eauto |].
    exists []. split; [symmetry; apply app_nil_r | constructor].
  - cbn [push_loop] in E. unfold bind at 1 in E. unfold try at 1 in E.
    destruct ((content <- readFileSync (pf_path file);;
               uploadFile pid None (relativePath file) content) w)
      as [r1 w1] eqn:E1.
    assert (H1 : dir w1 = dir w /\ meta w1 = meta w /\
                 exists evs, log w1 = (log w ++ evs)%list /\
                             Forall no_download evs).
    { apply bind_inv in E1.
      destruct E1 as [(content & wa & Ea & E1) | (msg & Ea & _)].
      - assert (wa = w).
        { unfold readFileSync in Ea. destruct (dir w) as [root |];
            [destruct (Fs.lookup (pf_path file) root) as [[] |] |];
            injection Ea as _ <-; reflexivity. }
        subst wa. apply uploadFile_local in E1. exact E1.
      - assert (w1 = w).
        { unfold readFileSync in Ea. destruct (dir w) as [root |];
            [destruct (Fs.lookup (pf_path file) root) as [[] |] |];
            injection Ea as _ <-; reflexivity. }
        subst w1. split; [reflexivity |]. split; [reflexivity |].
        exists []. split; [symmetry; apply app_nil_r | constructor]. }
    destruct H1 as (Hd1 & Hm1 & evs1 & Hl1 & He1).
    assert (E2 : exists u f, push_loop pid rest u f w1 = (r, w'))
      by (destruct r1; eauto).
    destruct E2 as (u & f & E2). apply IH in E2.
    destruct E2 as (Hd2 & Hm2 & Hok & evs2 & Hl2 & He2).
    split; [congruence |]. split; [congruence |]. split; [exact Hok |].
    exists (evs1 ++ evs2)%list.
    split; [rewrite Hl2, Hl1, app_assoc; reflexivity |].
    apply Forall_app. split; assumption.
Qed.

(** How a [push] goes: it stops before anything is sent, or it scans the
    directory and reports, or it sends the files and stamps the state file
    that is there. *)
Lemma push_action_inv project all dryRun (w : world Srv) r w' :
  push_action project all dryRun w = (r, w') ->
  ((exists msg, r = Throw msg) /\ same_local w w')
  \/
  (exists outcome, r = Ok outcome) /\ dir w' = dir w /\
  (meta w' = meta w \/
   exists m u f, meta w = Some m /\ r = Ok (Uploaded u f) /\ dryRun = false /\
     meta w' = Some (pushed_at m (env_clock (Nat.pred (ticks w'))))).
Proof.
  intros E. unfold push_action in E.
  unfold bind at 1 in E. unfold readMeta at 1 in E.
  match type of E with
  | (if ?c then _ else _) _ = _ => destruct c
  end.
  { injection E as <- <-. left. split; [eauto | apply same_local_refl]. }
  apply bind_inv in E. destruct E as [(u & wa & Ea & E) | (msg & Ea & ->)];
    apply getClient_local in Ea; [| left; split; [eauto | exact Ea]].
  apply bind_inv in E. destruct E as [(proj & wb & Eb & E) | (msg & Eb & ->)];
    apply settle_local in Eb;
    pose proof (same_local_trans _ _ _ Ea Eb) as Hab;
    [| left; split; [eauto | exact Hab]].
  pose proof Hab as (Hd & Hm & Hl & Ht).
  unfold bind at 1 in E. unfold readdirSync_root in E.
  destruct (dir wb) as [[| dm es] |] eqn:Edir;
    try (injection E as <- <-; left; split; [eauto | exact Hab]).
  destruct (scanDir all (lastPullOf (meta w)) [] "" es []) as [| f0 files].
  { injection E as <- <-. right. split; [eauto |]. split; [congruence |].
    left. exact Hm. }
  destruct dryRun.
  { injection E as <- <-. right. split; [eauto |]. split; [congruence |].
    left. exact Hm. }
  apply bind_inv in E.
  destruct E as [(counts & wc & Ec & E) | (msg & Ec & ->)];
    apply push_loop_local in Ec;
    destruct Ec as (Hdc & Hmc & (counts' & Hok) & _); [| discriminate Hok].
  unfold bind at 1 in E. unfold readMeta at 1 in E. right.
  destruct (meta wc) as [m |] eqn:Emc.
  - unfold bind, now, writeMeta, ret in E. cbn in E. injection E as <- <-.
    cbn. split; [eauto |]. split; [congruence |]. right.
    exists m, (fst counts), (snd counts).
    repeat split. congruence.
  - unfold bind, ret in E. cbn in E. injection E as <- <-.
    split; [eauto |]. split; [congruence |]. left. congruence.
Qed.



(** A [push] never writes into the directory. Of the state file it changes
    at most [lastPush], and only when it has sent files: without a state
    file none is made, the project and [lastPull] recorded stay as they
    are, even when another project was named on the command line. *)
Theorem push_stamps_lastPush_only project all dryRun (w : world Srv) r w' :
  push_action project all dryRun w = (r, w') ->
  dir w' = dir w /\
  match meta w with
  | None => meta w' = None
  | Some m =>
      meta w' = Some m \/
      exists u f,
        r = Ok (Uploaded u f) /\ dryRun = false /\
        meta w' = Some (pushed_at m (env_clock (Nat.pred (ticks w'))))
  end.
Proof.
  intros E. apply push_action_inv in E.
  destruct E as [(_ & Hd & Hm & _) | (_ & Hd & Hm)].
  - split; [exact Hd |]. rewrite Hm. destruct (meta w); [left |]; reflexivity.
  - split; [exact Hd |]. destruct Hm as [Hm | (m & u & f & Hw & Hr & Hdry & Hm)].
    + rewrite Hm. destruct (meta w); [left |]; reflexivity.
    + rewrite Hw. right. exists u, f. repeat split; assumption.
Qed.

End Outlive.

(** ** What a sync decides for a remote file *)

Section SyncDecides.
Context {Srv : Type} `{Env Srv}.





End SyncDecides.

(** ** Strings *)

Lemma str_app_assoc (a b c : string) : (a ++ b) ++ c = a ++ (b ++ c).
Proof. induction a as [| x a IH]; cbn; [reflexivity | rewrite IH; reflexivity]. Qed.

Lemma trimEnd_keep (c : ascii) (x : string) :
  Str.is_white c = false ->
  Str.trimEnd (String c x) = String c (Str.trimEnd x).
Proof.
  intros Hc. cbn [Str.trimEnd]. rewrite Hc.
  destruct (Str.trimEnd x); reflexivity.
Qed.

Lemma trimEnd_app_keep (p : string) (c : ascii) (x : string) :
  Str.is_white c = false ->
  Str.trimEnd (p ++ String c x) = p ++ String c (Str.trimEnd x).
Proof.
  intros Hc. induction p as [| d p IH]; cbn [append].
  - apply trimEnd_keep. exact Hc.
  - cbn [Str.trimEnd]. rewrite IH. destruct p; reflexivity.
Qed.

Lemma trimEnd_idem (s : string) : Str.trimEnd (Str.trimEnd s) = Str.trimEnd s.
Proof.
  induction s as [| c s IH]; [reflexivity |]. cbn [Str.trimEnd].
  destruct (Str.trimEnd s) as [| d r] eqn:Er.
  - destruct (Str.is_white c) eqn:Ec; [reflexivity |].
    cbn [Str.trimEnd]. rewrite Ec. reflexivity.
  - cbn [Str.trimEnd] in *. rewrite IH. reflexivity.
Qed.

Lemma contains_trimEnd (x : ascii) (s : string) :
  contains x s = false -> contains x (Str.trimEnd s) = false.
Proof.
  induction s as [| c s IH]; [reflexivity |]. cbn [contains Str.trimEnd].
  intros Hc. apply orb_false_elim in Hc. destruct Hc as [Hc Hs].
  specialize (IH Hs). destruct (Str.trimEnd s) as [| d r].
  - destruct (Str.is_white c); [reflexivity |]. cbn. rewrite Hc. reflexivity.
  - cbn [contains] in *. rewrite Hc, IH. reflexivity.
Qed.

Lemma contains_app (x : ascii) (a b : string) :
  contains x (a ++ b) = (contains x a || contains x b)%bool.
Proof.
  induction a as [| c a IH]; cbn; [reflexivity |].
  rewrite IH, orb_assoc. reflexivity.
Qed.

Lemma startsWith_app (p x : string) : Str.startsWith p (p ++ x) = true.
Proof.
  unfold Str.startsWith. induction p as [| c p IH]; cbn [append prefix].
  - destruct x; reflexivity.
  - destruct (ascii_dec c c); [exact IH | contradiction].
Qed.

(** Splitting after a part that has no separator. *)
Lemma split_prefix (sep : ascii) (p y : string) :
  contains sep p = false ->
  JS.split sep (p ++ y) = (p ++ hd "" (JS.split sep y)) :: tl (JS.split sep y).
Proof.
  induction p as [| c p IH]; cbn [append contains]; intros Hc.
  - pose proof (split_nonempty sep y) as Hne.
    destruct (JS.split sep y); [contradiction | reflexivity].
  - apply orb_false_elim in Hc. destruct Hc as [Hc Hp].
    cbn [JS.split]. rewrite Hc, (IH Hp). reflexivity.
Qed.

(** ** The session cookie kept in [.olauth] *)

Lemma trim_olauth (x : string) :
  Str.trim ("overleaf_session2=" ++ x) = "overleaf_session2=" ++ Str.trimEnd x.
Proof.
  unfold Str.trim.
  change (Str.trimStart ("overleaf_session2=" ++ x))
    with ("overleaf_session2" ++ String "="%char x).
  rewrite trimEnd_app_keep by reflexivity. reflexivity.
Qed.

(** What [saveOlAuth] leaves behind when it is given no path. *)
Lemma saveOlAuth_files (cookie : string) (h h' : Config.host) :
  Config.saveOlAuth cookie None h = Some h' ->
  Config.OVERLEAF_SESSION h' = Config.OVERLEAF_SESSION h /\
  Config.config h' = Config.config h /\
  JS.get (Config.olAuthPath h') (Config.files h') =
    Some (Some ("overleaf_session2=" ++ cookie)).
Proof.
  unfold Config.saveOlAuth. intros Hs.
  destruct (Config.writable h (Config.olAuthPath h)); [| discriminate Hs].
  injection Hs as <-. split; [reflexivity |]. split; [reflexivity |].
  apply get_set_same.
Qed.

(** What [getSessionCookie] reads when the variable is not set and
    [.olauth] holds the text [saveOlAuth] writes for a cookie. *)
Lemma getSessionCookie_saved (cookie : string) (h h' : Config.host) :
  JS.truthy (Config.OVERLEAF_SESSION h) = false ->
  Config.saveOlAuth cookie None h = Some h' ->
  Config.getSessionCookie h' =
  nth_error
    (JS.split "="%char
       (Str.trim (hd "" (JS.split ";"%char
                           ("overleaf_session2=" ++ Str.trimEnd cookie))))) 1.
Proof.
  intros Henv Hs. apply saveOlAuth_files in Hs. destruct Hs as (He & _ & Hg).
  unfold Config.getSessionCookie. rewrite He, Henv, Hg. cbv zeta.
  rewrite trim_olauth.
  change ("overleaf_session2=" ++ Str.trimEnd cookie)
    with ("overleaf_session2" ++ String "="%char (Str.trimEnd cookie)).
  rewrite contains_app. cbn [contains]. rewrite Ascii.eqb_refl.
  rewrite orb_true_r.
  rewrite (split_prefix ";" "overleaf_session2"
             (String "="%char (Str.trimEnd cookie))) by reflexivity.
  cbn [map hd find].
  pose proof (split_nonempty ";" (Str.trimEnd cookie)) as Hne.
  cbn [JS.split]. change (Ascii.eqb "=" ";") with false. cbv iota.
  destruct (JS.split ";"%char (Str.trimEnd cookie)) as [| piece rest];
    [contradiction |].
  cbn [hd].
  assert (Ht : Str.trim ("overleaf_session2" ++ String "="%char piece)
               = "overleaf_session2" ++ String "="%char (Str.trimEnd piece)).
  { unfold Str.trim.
    change (Str.trimStart ("overleaf_session2" ++ String "="%char piece))
      with ("overleaf_session2" ++ String "="%char piece).
    apply trimEnd_app_keep. reflexivity. }
  rewrite Ht.
  change ("overleaf_session2" ++ String "="%char (Str.trimEnd piece))
    with ("overleaf_session2=" ++ Str.trimEnd piece).
  rewrite startsWith_app.
  reflexivity.
Qed.

(** A cookie without '=' and ';' that does not end in white space is read
    back from [.olauth] as it was saved, when the environment variable is
    not set; with white space at its end it is read back without it. *)
Theorem olauth_round_trip (cookie : string) (h h' : Config.host) :
  JS.truthy (Config.OVERLEAF_SESSION h) = false ->
  contains "="%char cookie = false ->
  contains ";"%char cookie = false ->
  Config.saveOlAuth cookie None h = Some h' ->
  Config.getSessionCookie h' = Some (Str.trimEnd cookie) /\
  (Str.trimEnd cookie = cookie -> Config.getSessionCookie h' = Some cookie).
Proof.
  intros Henv He Hs Hsave.
  assert (Hg : Config.getSessionCookie h' = Some (Str.trimEnd cookie)).
  { rewrite (getSessionCookie_saved cookie h h' Henv Hsave).
    change ("overleaf_session2=" ++ Str.trimEnd cookie)
      with ("overleaf_session2" ++ String "="%char (Str.trimEnd cookie)).
    rewrite (split_prefix ";" "overleaf_session2"
               (String "="%char (Str.trimEnd cookie))) by reflexivity.
    cbn [hd JS.split]. change (Ascii.eqb "=" ";") with false. cbv iota.
    rewrite (split_no_sep ";" (Str.trimEnd cookie))
      by (apply contains_trimEnd; exact Hs).
    cbn [hd]. unfold Str.trim.
    change (Str.trimStart ("overleaf_session2" ++ String "="%char (Str.trimEnd cookie)))
      with ("overleaf_session2" ++ String "="%char (Str.trimEnd cookie)).
    rewrite trimEnd_app_keep by reflexivity. rewrite trimEnd_idem.
    rewrite split_app_sep.
    rewrite (split_no_sep "=" (Str.trimEnd cookie))
      by (apply contains_trimEnd; exact He).
    reflexivity. }
  split; [exact Hg |]. intros Ht. rewrite Hg, Ht. reflexivity.
Qed.

(** A cookie with an '=' in it does not survive [.olauth]: what is read
    back is the part before its first '=' (when that part has no ';'). *)
Theorem olauth_cuts_at_equals (a r : string) (h h' : Config.host) :
  JS.truthy (Config.OVERLEAF_SESSION h) = false ->
  contains "="%char a = false ->
  contains ";"%char a = false ->
  Config.saveOlAuth (a ++ "=" ++ r) None h = Some h' ->
  Config.getSessionCookie h' = Some a.
Proof.
  intros Henv He Hs Hsave.
  rewrite (getSessionCookie_saved _ h h' Henv Hsave).
  change (a ++ "=" ++ r) with (a ++ String "="%char r).
  rewrite trimEnd_app_keep by reflexivity.
  change ("overleaf_session2=" ++ a ++ String "="%char (Str.trimEnd r))
    with ("overleaf_session2" ++
          String "="%char (a ++ String "="%char (Str.trimEnd r))).
  rewrite (split_prefix ";" "overleaf_session2") by reflexivity.
  cbn [hd JS.split]. change (Ascii.eqb "=" ";") with false. cbv iota.
  rewrite (split_prefix ";" a) by exact Hs.
  cbn [hd JS.split]. change (Ascii.eqb "=" ";") with false. cbv iota.
  pose proof (split_nonempty ";" (Str.trimEnd r)) as Hne.
  destruct (JS.split ";"%char (Str.trimEnd r)) as [| piece rest];
    [contradiction |].
  cbn [hd]. unfold Str.trim.
  change (Str.trimStart
            ("overleaf_session2" ++
             String "="%char (a ++ String "="%char piece)))
    with (("overleaf_session2" ++ String "="%char a) ++ String "="%char piece).
  rewrite trimEnd_app_keep by reflexivity.
  rewrite split_app_sep, split_app_sep.
  rewrite (split_no_sep "=" a) by exact He.
  reflexivity.
Qed.

(** ** Names made from a project's name *)







(** ** Finding an entity in the project tree *)

Lemma find_app_first {A} (p : A -> bool) (l1 l2 : list A) :
  find p (l1 ++ l2) =
  match find p l1 with
  | Some x => Some x
  | None => find p l2
  end.
Proof.
  induction l1 as [| x l1 IH]; cbn; [reflexivity |].
  destruct (p x); [reflexivity | exact IH].
Qed.

Lemma find_map_view {A B} (p : B -> bool) (g : A -> B) (l : list A) :
  find p (map g l) = option_map g (find (fun x => p (g x)) l).
Proof.
  induction l as [| x l IH]; cbn; [reflexivity |].
  destruct (p (g x)); [reflexivity | exact IH].
Qed.

(** The search is a search for the first answer in the list of the
    entities. *)
Lemma searchFolder_find (normalizedTarget : string)
  (folder : Tree.FolderEntry) :
  forall currentPath,
  searchFolder normalizedTarget folder currentPath =
  option_map snd (find (answers normalizedTarget)
                       (entities_of folder currentPath)).
Proof.
  induction folder as [i n fs ds rs IH] using FolderEntry_nested_ind.
  intros cur. cbn [searchFolder entities_of].
  rewrite find_app_first, find_map_view.
  change (fun x : Tree.Entry =>
            answers normalizedTarget
              (relative_join cur (Tree.name x), doc_entity x))
    with (fun d : Tree.Entry => matches normalizedTarget cur (Tree.name d)).
  destruct (find (fun d => matches normalizedTarget cur (Tree.name d)) ds)
    as [d |]; [reflexivity |].
  cbn [option_map]. rewrite find_app_first, find_map_view.
  change (fun x : Tree.Entry =>
            answers normalizedTarget
              (relative_join cur (Tree.name x), file_entity x))
    with (fun f : Tree.Entry => matches normalizedTarget cur (Tree.name f)).
  destruct (find (fun f => matches normalizedTarget cur (Tree.name f)) rs)
    as [f |]; [reflexivity |].
  cbn [option_map].
  induction IH as [| sub rest Hsub _ IHrest]; [reflexivity |].
  cbn [flat_map]. cbv zeta.
  change (find (answers normalizedTarget)
            (((relative_join cur (Tree.name_of sub), folder_entity sub)
              :: entities_of sub (relative_join cur (Tree.name_of sub)))
             ++ flat_map
                  (fun sub0 =>
                     (relative_join cur (Tree.name_of sub0), folder_entity sub0)
                     :: entities_of sub0 (relative_join cur (Tree.name_of sub0)))
                  rest))
    with (if matches normalizedTarget cur (Tree.name_of sub)
          then Some (relative_join cur (Tree.name_of sub), folder_entity sub)
          else find (answers normalizedTarget)
                 (entities_of sub (relative_join cur (Tree.name_of sub))
                  ++ flat_map
                       (fun sub0 =>
                          (relative_join cur (Tree.name_of sub0),
                           folder_entity sub0)
                          :: entities_of sub0
                               (relative_join cur (Tree.name_of sub0)))
                       rest)).
  destruct (matches normalizedTarget cur (Tree.name_of sub)); [reflexivity |].
  rewrite find_app_first, Hsub.
  destruct (find (answers normalizedTarget)
              (entities_of sub (relative_join cur (Tree.name_of sub))))
    as [pe |]; [reflexivity |].
  cbn [option_map]. exact IHrest.
Qed.

Lemma entities_located (folder : Tree.FolderEntry) :
  forall cur p e,
  In (p, e) (entities_of folder cur) <-> located folder cur p e.
Proof.
  induction folder as [i n fs ds rs IH] using FolderEntry_nested_ind.
  intros cur p e. rewrite Forall_forall in IH. cbn [entities_of]. split.
  - intros Hin. apply in_app_or in Hin. destruct Hin as [Hin | Hin].
    { apply in_map_iff in Hin. destruct Hin as (d & E & Hd).
      injection E as <- <-. apply located_doc. exact Hd. }
    apply in_app_or in Hin. destruct Hin as [Hin | Hin].
    { apply in_map_iff in Hin. destruct Hin as (f & E & Hf).
      injection E as <- <-. apply located_file. exact Hf. }
    apply in_flat_map in Hin. destruct Hin as (sub & Hsub & Hin).
    destruct Hin as [E | Hin].
    + injection E as <- <-. apply located_folder. exact Hsub.
    + apply (IH sub Hsub) in Hin. eapply located_below; eassumption.
  - intros Hl. inversion Hl as [? ? ? ? ? ? d Hd | ? ? ? ? ? ? f Hf
                              | ? ? ? ? ? ? sub Hsub
                              | ? ? ? ? ? ? sub ? ? Hsub Hbelow]; subst.
    + apply in_or_app. left.
      apply in_map_iff. exists d. split; [reflexivity | exact Hd].
    + apply in_or_app. right. apply in_or_app. left.
      apply in_map_iff. exists f. split; [reflexivity | exact Hf].
    + apply in_or_app. right. apply in_or_app. right.
      apply in_flat_map. exists sub. split; [exact Hsub | left; reflexivity].
    + apply in_or_app. right. apply in_or_app. right.
      apply in_flat_map. exists sub. split; [exact Hsub |].
      right. apply (IH sub Hsub). exact Hbelow.
Qed.

Lemma answers_spec (t : string) (pe : string * Entity.t) :
  answers t pe = true <-> fst pe = t \/ Entity.name (snd pe) = t.
Proof.
  unfold answers. rewrite orb_true_iff, !String.eqb_eq. reflexivity.
Qed.

(** [findEntityByPath] searches the first root folder of the page, for the
    path without a leading '/': it returns the first entity, in the
    order docs, files, sub-folders (each sub-folder before what it holds),
    whose path or whose bare name is the target, and null when the page has
    no root folder. *)
Theorem findEntity_first_match (rootFolder : option (list Tree.FolderEntry))
  (targetPath : string) :
  findEntityIn rootFolder targetPath =
  match rootFolder with
  | Some (root :: _) =>
      option_map snd (find (answers (Str.dropLeadingSlash targetPath))
                           (entities_of root ""))
  | _ => None
  end.
Proof.
  unfold findEntityIn. cbv zeta.
  destruct rootFolder as [[| root others] |]; try reflexivity.
  apply searchFolder_find.
Qed.

(** What [findEntityByPath] finds is a doc, a file or a folder of the tree
    whose path from the root, or whose name alone, is the target; it finds
    nothing exactly when the tree has no such entity. A bare name thus
    reaches an entity in any sub-folder. *)
Theorem findEntity_sound_complete (root : Tree.FolderEntry)
  (others : list Tree.FolderEntry) (targetPath : string) :
  let t := Str.dropLeadingSlash targetPath in
  (forall e, findEntityIn (Some (root :: others)) targetPath = Some e ->
     exists p, located root "" p e /\ (p = t \/ Entity.name e = t)) /\
  (findEntityIn (Some (root :: others)) targetPath = None <->
   forall p e, located root "" p e -> p <> t /\ Entity.name e <> t).
Proof.
  cbv zeta. unfold findEntityIn. cbv zeta. rewrite searchFolder_find. split.
  - intros e E.
    destruct (find (answers (Str.dropLeadingSlash targetPath))
                (entities_of root "")) as [[p e'] |] eqn:Ef; [| discriminate E].
    injection E as ->. apply find_some in Ef. destruct Ef as [Hin Ha].
    exists p. split; [apply entities_located; exact Hin |].
    apply answers_spec in Ha. exact Ha.
  - split.
    + intros E p e Hl.
      destruct (find (answers (Str.dropLeadingSlash targetPath))
                  (entities_of root "")) as [pe |] eqn:Ef; [discriminate E |].
      apply entities_located in Hl.
      pose proof (find_none _ _ Ef _ Hl) as Hn.
      split; intros Heq; apply not_true_iff_false in Hn; apply Hn;
        apply answers_spec; [left | right]; exact Heq.
    + intros Hno.
      destruct (find (answers (Str.dropLeadingSlash targetPath))
                  (entities_of root "")) as [[p e] |] eqn:Ef; [| reflexivity].
      exfalso. apply find_some in Ef. destruct Ef as [Hin Ha].
      apply entities_located in Hin. apply answers_spec in Ha.
      destruct (Hno p e Hin) as [H1 H2]. destruct Ha; contradiction.
Qed.

(** ** Acting on an entity by its path *)

Section ByPath.
Context {Srv : Type} `{Env Srv} `{Pages Srv}.



End ByPath.

(** ** Examples of the further properties *)


Lemma pull_bookkeeping_witness :
  exists c,
    fst (pull_action None false Demo.edited) = Ok c /\
    (fileCount c + skippedCount c = 1)%nat /\
    List.length (skippedFiles c) = skippedCount c.
Proof.
  pose (run := pull_action None false Demo.edited).
  assert (H1 : exists c, run = (Ok c, snd run))
    by (eexists; vm_compute; reflexivity).
  destruct H1 as [c H1]. exists c.
  split; [change (fst run = Ok c); rewrite H1; reflexivity |].
  destruct (pull_bookkeeping None false Demo.edited c (snd run) H1)
    as (pid & entries & pn & Hlog & Hsum & Hlen & _).
  assert (He : entries = [ {| entryName := "main.tex"; isDirectory := false;
                              getData := Demo.b "A" |} ]).
  { apply (f_equal (fun evs => match evs with
                               | EvDownload _ (Some es) :: _ => es
                               | _ => []
                               end)) in Hlog.
    vm_compute in Hlog. symmetry. exact Hlog. }
  subst entries. split; [exact Hsum | exact Hlen].
Defined.



Lemma push_stamps_lastPush_only_witness :
  dir (snd (push_action None false false Demo.edited)) = dir Demo.edited.
Proof.
  exact (proj1 (push_stamps_lastPush_only None false false Demo.edited _ _
                  (surjective_pairing _))).
Defined.




Lemma olauth_round_trip_witness :
  exists h', Config.saveOlAuth "s%3Aabc.def" None Cases.host = Some h' /\
             Config.getSessionCookie h' = Some "s%3Aabc.def".
Proof.
  eexists. split; [reflexivity |].
  refine (proj2 (olauth_round_trip "s%3Aabc.def" Cases.host _ eq_refl eq_refl
                   eq_refl eq_refl) eq_refl).
Defined.

Lemma olauth_cuts_at_equals_witness :
  exists h', Config.saveOlAuth "s%3Aabc==" None Cases.host = Some h' /\
             Config.getSessionCookie h' = Some "s%3Aabc".
Proof.
  eexists. split; [reflexivity |].
  exact (olauth_cuts_at_equals "s%3Aabc" "=" Cases.host _ eq_refl eq_refl
           eq_refl eq_refl).
Defined.

Lemma findEntity_sound_complete_witness :
  exists p, located Cases.tree "" p
              {| Entity.id := "d2"; Entity.type := Tree.doc;
                 Entity.name := "intro.tex" |} /\
            (p = "intro.tex" \/ "intro.tex" = "intro.tex").
Proof.
  exact (proj1 (findEntity_sound_complete Cases.tree [] "/intro.tex")
           {| Entity.id := "d2"; Entity.type := Tree.doc;
              Entity.name := "intro.tex" |} eq_refl).
Defined.

